(** * Command-line argument lookup of [arg_parse.cc]

    A shallow embedding of the flag lookup functions of
    [src/anc/stim_src_v1.3/src/arg_parse.cc] and the properties of them that
    the specification states.

    - [argv] is a [list string]; [argc] is its length.
    - A [const char *] is a [string]; the terminating NUL is the end of the
      string, so reading the character at the length gives [None].
    - A call that prints a diagnostic and calls [exit(EXIT_FAILURE)] yields
      [Exit EXIT_FAILURE d], where [d] records which diagnostic was printed
      and the values handed to [fprintf].
    - [int] is 32 bits, [long] is 64 bits (the LP64 data model), [float] is
      IEEE 754 binary32. *)

From Stdlib Require Import String Ascii List ZArith Lia Bool Arith.
From Stdlib Require Import Floats.SpecFloat.
Import ListNotations.
Local Open Scope string_scope.

(** ** The C library functions the file calls *)

Module Libc.

Definition strlen (s : string) : nat := String.length s.

(** Only the sign of the result is specified by C. *)
Definition strcmp (a b : string) : Z :=
  match String.compare a b with
  | Eq => 0%Z
  | Lt => (-1)%Z
  | Gt => 1%Z
  end.

(** [strstr haystack needle]: the offset of the first occurrence of
    [needle] in [haystack]; [None] is the null pointer. *)
Definition strstr (haystack needle : string) : option nat :=
  String.index 0 needle haystack.

(** [s[n]]; [None] is the terminating NUL. *)
Definition char_at (s : string) (n : nat) : option ascii := String.get n s.

Definition is_nul (c : option ascii) : bool :=
  match c with
  | None => true
  | Some _ => false
  end.

Definition is_char (c : option ascii) (x : ascii) : bool :=
  match c with
  | None => false
  | Some y => Ascii.eqb y x
  end.

(** The pointer [s + n], for [n <= strlen s]. *)
Fixpoint advance (s : string) (n : nat) {struct n} : string :=
  match n, s with
  | 0, _ => s
  | S n', String _ s' => advance s' n'
  | S _, EmptyString => EmptyString
  end.

Definition EXIT_FAILURE : Z := 1.

Definition INT_MIN : Z := - 2 ^ 31.
Definition INT_MAX : Z := 2 ^ 31 - 1.
Definition LONG_MIN : Z := - 2 ^ 63.
Definition LONG_MAX : Z := 2 ^ 63 - 1.

(** The conversion [(int)i] of a [long]. *)
Definition to_int (i : Z) : Z := ((i + 2 ^ 31) mod 2 ^ 32 - 2 ^ 31)%Z.

(** The conversion [(size_t)i] of an [int]. *)
Definition to_size_t (i : Z) : Z := (i mod 2 ^ 64)%Z.

Definition isspace (c : ascii) : bool :=
  match c with
  | " "%char | "009"%char | "010"%char | "011"%char | "012"%char | "013"%char => true
  | _ => false
  end.

Definition digit_value (c : ascii) : option Z :=
  match c with
  | "0"%char => Some 0%Z
  | "1"%char => Some 1%Z
  | "2"%char => Some 2%Z
  | "3"%char => Some 3%Z
  | "4"%char => Some 4%Z
  | "5"%char => Some 5%Z
  | "6"%char => Some 6%Z
  | "7"%char => Some 7%Z
  | "8"%char => Some 8%Z
  | "9"%char => Some 9%Z
  | _ => None
  end.

Fixpoint skip_spaces (s : string) : string :=
  match s with
  | String c s' => if isspace c then skip_spaces s' else s
  | EmptyString => s
  end.

(** Reads the longest run of decimal digits at the start of [s]:
    the value read (continuing from [acc]) and the unread rest. *)
Fixpoint read_digits (s : string) (acc : Z) : Z * string :=
  match s with
  | String c s' =>
      match digit_value c with
      | Some d => read_digits s' (10 * acc + d)%Z
      | None => (acc, s)
      end
  | EmptyString => (acc, s)
  end.

Definition clamp_long (v : Z) : Z :=
  if (v <? LONG_MIN)%Z then LONG_MIN
  else if (LONG_MAX <? v)%Z then LONG_MAX
  else v.

Definition starts_with_digit (s : string) : bool :=
  match s with
  | String c _ => match digit_value c with Some _ => true | None => false end
  | EmptyString => false
  end.

(** An optional sign: whether it is ['-'], and what follows it. *)
Definition split_sign (s : string) : bool * string :=
  match s with
  | String "-"%char s' => (true, s')
  | String "+"%char s' => (false, s')
  | _ => (false, s)
  end.

(** [strtol(nptr, &endptr, 10)]: the value and the string at [endptr].
    White space is skipped, one sign is accepted, then the digits are
    read; a value that does not fit a [long] is replaced by [LONG_MIN] or
    [LONG_MAX]. When no digit is found no conversion is done: the value is
    0 and [endptr] is [nptr]. *)
Definition strtol (nptr : string) : Z * string :=
  let '(negative, body) := split_sign (skip_spaces nptr) in
  if starts_with_digit body then
    let '(v, rest) := read_digits body 0 in
    (clamp_long (if negative then - v else v), rest)
  else (0%Z, nptr).

(** *** [strtof] *)

Definition FLT_MANT_DIG : Z := 24.
Definition FLT_MAX_EXP : Z := 128.

Definition tolower (c : ascii) : ascii :=
  let n := nat_of_ascii c in
  if (65 <=? n)%nat && (n <=? 90)%nat then ascii_of_nat (n + 32) else c.

(** Skips [lit] (given in lower case) at the start of [s], ignoring case. *)
Fixpoint skip_nocase (lit s : string) : option string :=
  match lit with
  | EmptyString => Some s
  | String l lit' =>
      match s with
      | String c s' =>
          if Ascii.eqb (tolower c) l then skip_nocase lit' s' else None
      | EmptyString => None
      end
  end.

Definition hex_value (c : ascii) : option Z :=
  match digit_value c with
  | Some d => Some d
  | None =>
      match tolower c with
      | "a"%char => Some 10%Z
      | "b"%char => Some 11%Z
      | "c"%char => Some 12%Z
      | "d"%char => Some 13%Z
      | "e"%char => Some 14%Z
      | "f"%char => Some 15%Z
      | _ => None
      end
  end.

Fixpoint read_hex_digits (s : string) (acc : Z) : Z * string :=
  match s with
  | String c s' =>
      match hex_value c with
      | Some d => read_hex_digits s' (16 * acc + d)%Z
      | None => (acc, s)
      end
  | EmptyString => (acc, s)
  end.

(** The number of characters between [s] and its suffix [rest]. *)
Definition consumed (s rest : string) : Z :=
  Z.of_nat (String.length s - String.length rest).

(** Digits with at most one radix point and at least one digit: the digits
    read as one integer, the number of digits after the point, the rest. *)
Definition read_mantissa (digits : string -> Z -> Z * string) (s : string)
  : option (Z * Z * string) :=
  let '(whole, s1) := digits s 0%Z in
  match s1 with
  | String "."%char s2 =>
      let '(m, s3) := digits s2 whole in
      if (consumed s s1 + consumed s2 s3 =? 0)%Z then None
      else Some (m, consumed s2 s3, s3)
  | _ => if (consumed s s1 =? 0)%Z then None else Some (whole, 0%Z, s1)
  end.

(** The optional exponent part after [marker] (['e'] or ['p']): it is read
    only when at least one digit follows the optional sign. *)
Definition read_exponent (marker : ascii) (s : string) : Z * string :=
  match s with
  | String c s1 =>
      if Ascii.eqb (tolower c) marker then
        let '(negative, s2) := split_sign s1 in
        if starts_with_digit s2 then
          let '(v, rest) := read_digits s2 0 in
          ((if negative then - v else v)%Z, rest)
        else (0%Z, s)
      else (0%Z, s)
  | EmptyString => (0%Z, s)
  end.

(** [m * 2 ^ e] rounded to nearest, ties to even. *)
Definition float_of_binary (negative : bool) (m e : Z) : spec_float :=
  match m with
  | Zpos p => binary_round FLT_MANT_DIG FLT_MAX_EXP negative p e
  | _ => S754_zero negative
  end.

(** [m * 10 ^ e] rounded to nearest, ties to even. *)
Definition float_of_decimal (negative : bool) (m e : Z) : spec_float :=
  match m with
  | Zpos p =>
      if (0 <=? e)%Z then
        float_of_binary negative (Zpos p * 10 ^ e) 0
      else
        let '(q, e', l) :=
          SFdiv_core_binary FLT_MANT_DIG FLT_MAX_EXP (Zpos p) 0 (10 ^ (- e)) 0 in
        binary_round_aux FLT_MANT_DIG FLT_MAX_EXP negative q e' l
  | _ => S754_zero negative
  end.

Definition is_nan_char (c : ascii) : bool :=
  let n := nat_of_ascii (tolower c) in
  match digit_value c with
  | Some _ => true
  | None => (97 <=? n)%nat && (n <=? 122)%nat || Ascii.eqb c "_"
  end.

Fixpoint skip_nan_chars (s : string) : option string :=
  match s with
  | String c s' =>
      if Ascii.eqb c ")" then Some s'
      else if is_nan_char c then skip_nan_chars s'
      else None
  | EmptyString => None
  end.

(** After [nan]: an optional [(n-char-sequence)]. *)
Definition skip_nan_payload (s : string) : string :=
  match s with
  | String "("%char s' =>
      match skip_nan_chars s' with
      | Some rest => rest
      | None => s
      end
  | _ => s
  end.

(** [strtof(nptr, &endptr)]: the value and the string at [endptr]. White
    space is skipped and one sign is accepted; then come [infinity] or
    [inf], [nan], a hexadecimal or a decimal floating constant. The value
    is rounded to the nearest [float], and is an infinity when it is too
    large. When none of these forms is found no conversion is done: the
    value is 0 and [endptr] is [nptr]. C libraries may differ from this
    rounding in the last place, for subnormal results in particular; the
    properties proved below do not depend on it. *)
Definition strtof (nptr : string) : spec_float * string :=
  let '(negative, body) := split_sign (skip_spaces nptr) in
  match skip_nocase "infinity" body with
  | Some rest => (S754_infinity negative, rest)
  | None =>
  match skip_nocase "inf" body with
  | Some rest => (S754_infinity negative, rest)
  | None =>
  match skip_nocase "nan" body with
  | Some rest => (S754_nan, skip_nan_payload rest)
  | None =>
  match
    match skip_nocase "0x" body with
    | Some h => read_mantissa read_hex_digits h
    | None => None
    end
  with
  | Some (m, fraction_digits, rest) =>
      let '(e, rest') := read_exponent "p" rest in
      (float_of_binary negative m (e - 4 * fraction_digits), rest')
  | None =>
  match read_mantissa read_digits body with
  | Some (m, fraction_digits, rest) =>
      let '(e, rest') := read_exponent "e" rest in
      (float_of_decimal negative m (e - fraction_digits), rest')
  | None => (S754_zero false, nptr)
  end end end end end.

End Libc.

Import Libc.

(** ** Results of a call *)

Inductive flag_type : Type := IntFlag | FloatFlag | EnumFlag.

(** The type [float]. *)
Definition float : Type := spec_float.

(** The diagnostics written to [stderr], with the values printed in them. *)
Inductive diagnostic : Type :=
| MissingArgument (name : string)
| UnrecognizedArgument (arg : string) (for_mode : option string)
    (known_arguments : list string)
| InvalidBooleanValue (text name : string)
| MissingRequiredValue (ty : flag_type) (name : string)
    (recognized : list (string * bool))
| InvalidIntegerValue (text name : string)
| IntegerOutOfRange (text name : string) (min_value i max_value : Z)
| InvalidFloatValue (text name : string)
| FloatOutOfRange (text name : string) (min_value f max_value : float)
| UnrecognizedEnumValue (text name : string)
    (recognized : list (string * bool)).

Inductive outcome (A : Type) : Type :=
| Return (a : A)
| Exit (status : Z) (stderr : diagnostic).

Arguments Return {A} a.
Arguments Exit {A} status stderr.

(** ** [find_argument] *)

Definition argv_at (argv : list string) (i : nat) : string := nth i argv "".

(** [while (flag_count < argc && strcmp(argv[flag_count], "--") != 0)
      flag_count++;]
    [steps] bounds the number of iterations. *)
Fixpoint flag_count_loop (argv : list string) (steps flag_count : nat) : nat :=
  match steps with
  | 0 => flag_count
  | S steps' =>
      if (flag_count <? List.length argv)%nat
         && negb (strcmp (argv_at argv flag_count) "--" =? 0)%Z
      then flag_count_loop argv steps' (S flag_count)
      else flag_count
  end.

(** The body of the search loop at index [i]: [None] is [continue], [Some r]
    is [return r]. [loc] is the pointer returned by [strstr], as an offset
    into [argv[i]]; [loc[n]] is only read when [loc == argv[i]]. *)
Definition search_body (name : string) (argv : list string) (i : nat)
  : option string :=
  let argc := List.length argv in
  let n := strlen name in
  let loc := strstr (argv_at argv i) name in
  let loc_n := char_at (argv_at argv i) n in
  if match loc with Some 0 => false | _ => true end
     || (negb (is_nul loc_n) && negb (is_char loc_n "="))
  then None
  else if is_nul loc_n
          && ((i =? argc - 1)%nat || is_char (char_at (argv_at argv (i + 1)) 0) "-")
  then Some (advance (argv_at argv i) n)
  else if is_char loc_n "="
  then Some (advance (argv_at argv i) (n + 1))
  else Some (argv_at argv (i + 1)).

(** [for (size_t i = 1; i < flag_count; i++) { ... }], falling out of the
    loop returns the null pointer. *)
Fixpoint search_loop (name : string) (argv : list string)
    (flag_count steps i : nat) : option string :=
  match steps with
  | 0 => None
  | S steps' =>
      if (i <? flag_count)%nat then
        match search_body name argv i with
        | Some r => Some r
        | None => search_loop name argv flag_count steps' (S i)
        end
      else None
  end.

(** The result is [None] for the null pointer ("not found"). *)
Definition find_argument (name : string) (argv : list string) : option string :=
  let argc := List.length argv in
  let flag_count := flag_count_loop argv argc 1 in
  search_loop name argv flag_count flag_count 1.

Definition require_find_argument (name : string) (argv : list string)
  : outcome string :=
  match find_argument name argv with
  | None => Exit EXIT_FAILURE (MissingArgument name)
  | Some result => Return result
  end.


(** ** [check_for_unknown_arguments] *)

(** The inner loop over [known_arguments] for [argv[i]]: [None] when the
    loop ends with [matched == 0], [Some i'] when it breaks with
    [matched == 1], [i'] being [i] after the conditional [i++]. *)
Fixpoint match_known (known_arguments : list string) (argv : list string)
    (i : nat) : option nat :=
  match known_arguments with
  | [] => None
  | known :: others =>
      let argc := List.length argv in
      let loc := strstr (argv_at argv i) known in
      let n := strlen known in
      let loc_n := char_at (argv_at argv i) n in
      if match loc with Some 0 => true | _ => false end
         && (is_nul loc_n || is_char loc_n "=")
      then
        if is_nul loc_n && (i <? argc - 1)%nat
           && negb (is_char (char_at (argv_at argv (i + 1)) 0) "-")
        then Some (i + 1)
        else Some i
      else match_known others argv i
  end.

(** [for (int i = 1; i < argc; i++) { ... }]; [steps] bounds the number of
    iterations. *)
Fixpoint check_loop (known_arguments : list string) (for_mode : option string)
    (argv : list string) (steps i : nat) : outcome unit :=
  match steps with
  | 0 => Return tt
  | S steps' =>
      if (i <? List.length argv)%nat then
        if (strcmp (argv_at argv i) "--" =? 0)%Z then Return tt
        else
          match match_known known_arguments argv i with
          | Some i' => check_loop known_arguments for_mode argv steps' (i' + 1)
          | None =>
              Exit EXIT_FAILURE
                (UnrecognizedArgument (argv_at argv i) for_mode known_arguments)
          end
      else Return tt
  end.

Definition check_for_unknown_arguments (known_arguments : list string)
    (for_mode : option string) (argv : list string) : outcome unit :=
  check_loop known_arguments for_mode argv (List.length argv) 1.

(** ** [find_bool_argument] *)

Definition find_bool_argument (name : string) (argv : list string)
  : outcome bool :=
  match find_argument name argv with
  | None => Return false
  | Some text =>
      if is_nul (char_at text 0) then Return true
      else Exit EXIT_FAILURE (InvalidBooleanValue text name)
  end.

(** ** [find_int_argument] *)

(** The block run when no value text is given. *)
Definition int_without_value (name : string)
    (default_value min_value max_value : Z) : outcome Z :=
  if (default_value <? min_value)%Z || (default_value >? max_value)%Z
  then Exit EXIT_FAILURE (MissingRequiredValue IntFlag name [])
  else Return default_value.

Definition find_int_argument (name : string)
    (default_value min_value max_value : Z) (argv : list string) : outcome Z :=
  match find_argument name argv with
  | None => int_without_value name default_value min_value max_value
  | Some text =>
      if is_nul (char_at text 0)
      then int_without_value name default_value min_value max_value
      else
        let '(i, processed) := strtol text in
        if negb (is_nul (char_at processed 0))
        then Exit EXIT_FAILURE (InvalidIntegerValue text name)
        else if (i <? min_value)%Z || (i >? max_value)%Z
        then Exit EXIT_FAILURE
               (IntegerOutOfRange text name min_value i max_value)
        else Return (to_int i)
  end.

(** ** [find_float_argument] *)

Definition float_zero : float := S754_zero false.
Definition float_one : float := S754_finite false 8388608 (-23).

Definition float_lt (a b : float) : bool := SFltb a b.
Definition float_gt (a b : float) : bool := SFltb b a.
Definition float_le (a b : float) : bool := SFleb a b.
Definition float_ne (a b : float) : bool := negb (SFeqb a b).

Definition find_float_argument (name : string)
    (default_value min_value max_value : float) (argv : list string)
  : outcome float :=
  match find_argument name argv with
  | None =>
      if float_lt default_value min_value || float_gt default_value max_value
      then Exit EXIT_FAILURE (MissingRequiredValue FloatFlag name [])
      else Return default_value
  | Some text =>
      let '(f, processed) := strtof text in
      if negb (is_nul (char_at processed 0))
      then Exit EXIT_FAILURE (InvalidFloatValue text name)
      else if float_lt f min_value || float_gt f max_value || float_ne f f
      then Exit EXIT_FAILURE (FloatOutOfRange text name min_value f max_value)
      else Return f
  end.

(** ** [find_enum_argument] *)

(** [for (size_t i = 0; i < known_values.size(); i++)
      if (!strcmp(text, known_values[i])) return i;] *)
Fixpoint enum_loop (text : string) (known_values : list string) (i : nat)
  : option nat :=
  match known_values with
  | [] => None
  | value :: others =>
      if (strcmp text value =? 0)%Z then Some i
      else enum_loop text others (S i)
  end.

(** The list printed under "Recognized values are:", each value with
    whether it is marked as the default. *)
Fixpoint recognized_values (known_values : list string) (default_index : Z)
    (i : nat) : list (string * bool) :=
  match known_values with
  | [] => []
  | value :: others =>
      (value, (Z.of_nat i =? to_size_t default_index)%Z)
        :: recognized_values others default_index (S i)
  end.

Definition find_enum_argument (name : string) (default_index : Z)
    (known_values : list string) (argv : list string) : outcome Z :=
  match find_argument name argv with
  | None =>
      if (default_index >=? 0)%Z then Return default_index
      else Exit EXIT_FAILURE
             (MissingRequiredValue EnumFlag name
                (recognized_values known_values default_index 0))
  | Some text =>
      match enum_loop text known_values 0 with
      | Some i => Return (to_int (Z.of_nat i))
      | None =>
          Exit EXIT_FAILURE
            (UnrecognizedEnumValue text name
               (recognized_values known_values default_index 0))
      end
  end.

(** ** What the specification calls a match *)

(** The flag boundary: the index of the first ["--"] among the tokens after
  the program name, or the length of the vector. *)
Fixpoint first_dashdash (tokens : list string) : nat :=
match tokens with
| [] => 0
| tok :: rest => if String.eqb tok "--" then 0 else S (first_dashdash rest)
end.

Definition boundary (argv : list string) : nat :=
match argv with
| [] => 0
| _ :: rest => S (first_dashdash rest)
end.

(** A token matches [name] exactly, or as [name=value]. *)
Definition token_matches (name tok : string) : Prop :=
tok = name \/ exists value, tok = name ++ "=" ++ value.

Definition begins_with_dash (tok : string) : bool :=
match tok with
| String "-"%char _ => true
| _ => false
end.

(** ** What the specification calls a base-10 integer *)

Fixpoint all_chars (p : ascii -> bool) (s : string) : bool :=
  match s with
  | EmptyString => true
  | String c s' => p c && all_chars p s'
  end.

Definition is_digit (c : ascii) : bool :=
  match digit_value c with
  | Some _ => true
  | None => false
  end.

(** The number written by a string of decimal digits. *)
Fixpoint decimal_value (digits : string) : Z :=
  match digits with
  | EmptyString => 0
  | String c digits' =>
      (match digit_value c with Some d => d | None => 0 end
       * 10 ^ Z.of_nat (String.length digits') + decimal_value digits')%Z
  end.

(** [text] is, as a whole, white space, an optional sign and at least one
    decimal digit, and [v] is the integer it writes. *)
Definition integer_text (text : string) (v : Z) : Prop :=
  exists spaces digits,
    all_chars isspace spaces = true
    /\ digits <> ""
    /\ all_chars is_digit digits = true
    /\ ((text = spaces ++ digits /\ v = decimal_value digits)
        \/ (text = spaces ++ "+" ++ digits /\ v = decimal_value digits)
        \/ (text = spaces ++ "-" ++ digits /\ v = (- decimal_value digits)%Z)).

(** ** What the specification calls a recognized token *)

Inductive token_class : Type := BareFlag | InlineFlag | UnknownToken.

(** The first known name, in the order of the list, that the token is equal
    to or that the token continues with ['='] decides the class. *)
Fixpoint classify (known_arguments : list string) (tok : string)
  : token_class :=
  match known_arguments with
  | [] => UnknownToken
  | known :: others =>
      if String.eqb tok known then BareFlag
      else if prefix (known ++ "=") tok then InlineFlag
      else classify others tok
  end.

(** Scans the tokens after the program name up to the first ["--"]: a
    bare flag takes the next token as its value when that token does not
    begin with ['-'], and the value is not looked at. The result is the
    first token that is neither a flag nor such a value. *)
Fixpoint first_unrecognized (known_arguments : list string)
    (tokens : list string) : option string :=
  match tokens with
  | [] => None
  | tok :: rest =>
      if String.eqb tok "--" then None
      else
        match classify known_arguments tok with
        | BareFlag =>
            match rest with
            | value :: rest' =>
                if begins_with_dash value
                then first_unrecognized known_arguments rest
                else first_unrecognized known_arguments rest'
            | [] => None
            end
        | InlineFlag => first_unrecognized known_arguments rest
        | UnknownToken => Some tok
        end
  end.

(** The outcome that goes with the result of a scan. *)
Definition outcome_of_scan (known_arguments : list string)
    (for_mode : option string) (found : option string) : outcome unit :=
  match found with
  | None => Return tt
  | Some tok =>
      Exit EXIT_FAILURE (UnrecognizedArgument tok for_mode known_arguments)
  end.

(** ** Facts on C strings *)

Section StringFacts.

Lemma compare_refl (s : string) : String.compare s s = Eq.
Proof.
  induction s as [|c s IH]; simpl; [reflexivity|].
  unfold Ascii.compare. now rewrite N.compare_refl.
Qed.

Lemma strcmp_zero_iff (a b : string) : strcmp a b = 0%Z <-> a = b.
Proof.
  unfold strcmp. split.
  - destruct (String.compare a b) eqn:E; try discriminate.
    intros _. now apply String.compare_eq_iff.
  - intros ->. rewrite compare_refl. reflexivity.
Qed.

Lemma strcmp_eqb (a b : string) : (strcmp a b =? 0)%Z = String.eqb a b.
Proof.
  destruct (String.eqb_spec a b) as [->|N].
  - apply Z.eqb_eq. now apply strcmp_zero_iff.
  - apply Z.eqb_neq. intros H. now apply strcmp_zero_iff in H.
Qed.

Lemma strstr_at_start (tok name : string) :
  strstr tok name = Some 0 <-> prefix name tok = true.
Proof.
  unfold strstr. destruct tok as [|c tok]; simpl.
  - destruct name; simpl; split; congruence.
  - destruct name as [|d name].
    + simpl. tauto.
    + change (prefix (String d name) (String c tok))
        with (if ascii_dec d c then prefix name tok else false).
      destruct (ascii_dec d c) as [->|N].
      * destruct (prefix name tok); [tauto|].
        destruct (index 0 (String c name) tok); split; congruence.
      * destruct (index 0 (String d name) tok); split; congruence.
Qed.

Lemma prefix_iff_append (name tok : string) :
  prefix name tok = true <-> exists rest, tok = name ++ rest.
Proof.
  revert tok. induction name as [|d name IH]; intros tok.
  - destruct tok; simpl; split; eauto.
  - destruct tok as [|c tok]; simpl.
    + split; [discriminate|]. intros [rest H]. discriminate.
    + destruct (ascii_dec d c) as [->|N].
      * rewrite IH. split; intros [rest H]; exists rest; congruence.
      * split; [discriminate|]. intros [rest H]. congruence.
Qed.

Lemma char_at_append (name rest : string) :
  char_at (name ++ rest) (strlen name) = char_at rest 0.
Proof. unfold strlen, char_at. induction name; simpl; auto. Qed.

Lemma advance_append (name rest : string) :
  advance (name ++ rest) (strlen name) = rest.
Proof. unfold strlen. induction name; simpl; auto. Qed.

Lemma advance_append_succ (name rest : string) (c : ascii) :
  advance (name ++ String c rest) (strlen name + 1) = rest.
Proof. unfold strlen. induction name; simpl; auto. Qed.

Lemma append_assoc (a b c : string) : (a ++ b) ++ c = a ++ b ++ c.
Proof. induction a as [|x a IH]; simpl; [reflexivity|now rewrite IH]. Qed.

Lemma append_empty_r (s : string) : s ++ "" = s.
Proof. induction s; simpl; congruence. Qed.

Lemma first_char_dash (tok : string) :
  is_char (char_at tok 0) "-" = begins_with_dash tok.
Proof.
  destruct tok as [|c tok]; simpl; [reflexivity|].
  destruct (Ascii.eqb_spec c "-"%char) as [->|N]; [reflexivity|].
  destruct c as [[] [] [] [] [] [] [] []]; try reflexivity.
  now elim N.
Qed.

Lemma append_length_neq (name rest : string) (c : ascii) :
  name ++ String c rest <> name.
Proof. induction name; simpl; congruence. Qed.

End StringFacts.

(** ** The search loop of [find_argument] *)

Section SearchFacts.

Variables (name : string) (argv : list string).

Lemma append_cancel (s a b : string) : s ++ a = s ++ b -> a = b.
Proof. induction s; simpl; intros H; [assumption|]. injection H. auto. Qed.

Lemma strstr_not_start (tok : string) :
  prefix name tok = false ->
  match strstr tok name with Some 0 => false | _ => true end = true.
Proof.
  intros H. destruct (strstr tok name) as [[|k]|] eqn:E; try reflexivity.
  apply strstr_at_start in E. congruence.
Qed.

(** A token that does not start with the name is skipped. *)
Lemma search_body_no_prefix (i : nat) :
  prefix name (argv_at argv i) = false -> search_body name argv i = None.
Proof.
  intros H. unfold search_body. now rewrite (strstr_not_start _ H).
Qed.

(** The name followed by a character other than ['='] is skipped. *)
Lemma search_body_other (i : nat) (c : ascii) (rest : string) :
  argv_at argv i = name ++ String c rest -> c <> "="%char ->
  search_body name argv i = None.
Proof.
  intros H N. unfold search_body. rewrite H, char_at_append. simpl.
  apply Ascii.eqb_neq in N. rewrite N. simpl.
  now rewrite orb_true_r.
Qed.

(** The bare flag. *)
Lemma search_body_exact (i : nat) :
  argv_at argv i = name ->
  search_body name argv i =
    Some (if (i =? List.length argv - 1)%nat
             || begins_with_dash (argv_at argv (i + 1))
          then "" else argv_at argv (i + 1)).
Proof.
  intros H. unfold search_body.
  assert (P : strstr (argv_at argv i) name = Some 0).
  { apply strstr_at_start, prefix_iff_append. exists "".
    now rewrite append_empty_r. }
  assert (C : char_at (argv_at argv i) (strlen name) = None).
  { rewrite H. rewrite <- (append_empty_r name) at 1.
    now rewrite char_at_append. }
  assert (A : advance (argv_at argv i) (strlen name) = "").
  { rewrite H. rewrite <- (append_empty_r name) at 1.
    now rewrite advance_append. }
  rewrite P, C, A, first_char_dash. simpl.
  now destruct ((i =? List.length argv - 1)%nat
                || begins_with_dash (argv_at argv (i + 1))).
Qed.

(** The flag with an inline value. *)
Lemma search_body_inline (i : nat) (value : string) :
  argv_at argv i = name ++ "=" ++ value ->
  search_body name argv i = Some value.
Proof.
  intros H. unfold search_body.
  assert (P : strstr (argv_at argv i) name = Some 0).
  { apply strstr_at_start, prefix_iff_append. eauto. }
  rewrite P, H, char_at_append. simpl.
  now rewrite advance_append_succ.
Qed.

Lemma search_body_none_iff (i : nat) :
  search_body name argv i = None <-> ~ token_matches name (argv_at argv i).
Proof.
  destruct (prefix name (argv_at argv i)) eqn:P.
  - apply prefix_iff_append in P. destruct P as [rest P].
    destruct rest as [|c rest].
    + rewrite append_empty_r in P. rewrite (search_body_exact _ P).
      split; [discriminate|]. intros N. elim N. now left.
    + destruct (Ascii.eqb_spec c "="%char) as [->|N].
      * rewrite (search_body_inline _ _ P).
        split; [discriminate|]. intros N. elim N. right. now exists rest.
      * rewrite (search_body_other _ _ _ P N). split; [|reflexivity].
        intros _ [E|[v E]]; rewrite P in E.
        -- now apply append_length_neq in E.
        -- apply append_cancel in E. simpl in E. congruence.
  - rewrite (search_body_no_prefix _ P). split; [|reflexivity].
    intros _ [E|[v E]].
    + assert (Q : prefix name (argv_at argv i) = true).
      { apply prefix_iff_append. exists "". now rewrite append_empty_r. }
      congruence.
    + assert (Q : prefix name (argv_at argv i) = true).
      { apply prefix_iff_append. eauto. }
      congruence.
Qed.

(** The loop returns at the first index whose body returns. *)
Lemma search_loop_first (flag_count steps i j : nat) (r : string) :
  i <= j -> j < flag_count -> j < i + steps ->
  (forall k, i <= k -> k < j -> search_body name argv k = None) ->
  search_body name argv j = Some r ->
  search_loop name argv flag_count steps i = Some r.
Proof.
  revert i. induction steps as [|steps IH]; intros i Hij Hj Hs Hbefore Hat.
  - lia.
  - simpl. replace (i <? flag_count)%nat with true
      by (symmetry; apply Nat.ltb_lt; lia).
    destruct (Nat.eq_dec i j) as [->|N].
    + now rewrite Hat.
    + rewrite (Hbefore i) by lia. apply IH; try lia; auto.
      intros k Hk1 Hk2. apply Hbefore; lia.
Qed.

(** The loop falls through exactly when every body in range continues. *)
Lemma search_loop_none_iff (flag_count steps i : nat) :
  flag_count <= i + steps ->
  (search_loop name argv flag_count steps i = None <->
   forall k, i <= k -> k < flag_count -> search_body name argv k = None).
Proof.
  revert i. induction steps as [|steps IH]; intros i Hs.
  - simpl. split; [|reflexivity]. intros _ k Hk1 Hk2. lia.
  - simpl. destruct (i <? flag_count)%nat eqn:L.
    + apply Nat.ltb_lt in L.
      destruct (search_body name argv i) as [r|] eqn:B.
      * split; [discriminate|]. intros H. rewrite (H i) in B by lia.
        discriminate.
      * rewrite IH by lia. split.
        -- intros H k Hk1 Hk2. destruct (Nat.eq_dec k i) as [->|N]; auto.
           apply H; lia.
        -- intros H k Hk1 Hk2. apply H; lia.
    + apply Nat.ltb_ge in L. split; [|reflexivity]. intros _ k Hk1 Hk2. lia.
Qed.

(** Steps beyond the end of the loop are not used. *)
Lemma search_loop_steps (flag_count steps steps' i : nat) :
  flag_count <= i + steps -> flag_count <= i + steps' ->
  search_loop name argv flag_count steps i
  = search_loop name argv flag_count steps' i.
Proof.
  revert steps' i. induction steps as [|steps IH]; intros steps' i H H'.
  - destruct steps' as [|steps']; [reflexivity|]. simpl.
    now replace (i <? flag_count)%nat with false
      by (symmetry; apply Nat.ltb_ge; lia).
  - simpl. destruct (i <? flag_count)%nat eqn:L.
    + apply Nat.ltb_lt in L. destruct steps' as [|steps']; [lia|].
      simpl. replace (i <? flag_count)%nat with true
        by (symmetry; apply Nat.ltb_lt; lia).
      destruct (search_body name argv i); [reflexivity|]. apply IH; lia.
    + destruct steps' as [|steps']; [reflexivity|]. simpl. now rewrite L.
Qed.

End SearchFacts.

(** ** The flag boundary computed by [find_argument] *)

Section BoundaryFacts.

Lemma skipn_cons_nth (l : list string) (k : nat) :
  k < List.length l -> skipn k l = argv_at l k :: skipn (S k) l.
Proof.
  revert k. induction l as [|a l IH]; intros k H; simpl in H; [lia|].
  destruct k as [|k]; [reflexivity|].
  change (skipn k l = argv_at l k :: skipn (S k) l). apply IH. lia.
Qed.

Lemma flag_count_loop_skipn (argv : list string) (steps k : nat) :
  k <= List.length argv -> List.length argv <= k + steps ->
  flag_count_loop argv steps k = k + first_dashdash (skipn k argv).
Proof.
  revert k. induction steps as [|steps IH]; intros k H1 H2.
  - simpl. rewrite skipn_all2 by lia. simpl. lia.
  - simpl. destruct (k <? List.length argv)%nat eqn:L.
    + apply Nat.ltb_lt in L. rewrite (skipn_cons_nth _ _ L).
      rewrite strcmp_eqb.
      change (first_dashdash (argv_at argv k :: skipn (S k) argv))
        with (if String.eqb (argv_at argv k) "--" then 0
              else S (first_dashdash (skipn (S k) argv))).
      destruct (String.eqb (argv_at argv k) "--"); cbn [negb andb].
      * lia.
      * rewrite IH by lia. lia.
    + apply Nat.ltb_ge in L. rewrite skipn_all2 by lia. simpl. lia.
Qed.

(** From the second token on, the loop stops at the flag boundary. *)
Lemma flag_count_boundary (argv : list string) :
  flag_count_loop argv (List.length argv) 1 = Nat.max 1 (boundary argv).
Proof.
  destruct argv as [|prog rest]; [reflexivity|].
  rewrite flag_count_loop_skipn by (simpl; lia). reflexivity.
Qed.

Lemma first_dashdash_le (tokens : list string) :
  first_dashdash tokens <= List.length tokens.
Proof.
  induction tokens as [|t r IH]; simpl; [lia|].
  destruct (String.eqb t "--"); lia.
Qed.

Lemma first_dashdash_at (tokens : list string) :
  first_dashdash tokens < List.length tokens ->
  nth (first_dashdash tokens) tokens "" = "--".
Proof.
  induction tokens as [|t r IH]; simpl; [lia|].
  destruct (String.eqb_spec t "--") as [->|N]; [reflexivity|].
  intros H. apply IH. lia.
Qed.

Lemma first_dashdash_before (tokens : list string) (i : nat) :
  i < first_dashdash tokens -> nth i tokens "" <> "--".
Proof.
  revert i. induction tokens as [|t r IH]; simpl; intros i H; [lia|].
  destruct (String.eqb_spec t "--") as [->|N]; [lia|].
  destruct i as [|i]; [assumption|]. apply IH. lia.
Qed.

(** The boundary is the first ["--"] after the program name, when there
    is one, and the length of the vector otherwise. *)
Lemma boundary_spec (argv : list string) :
  boundary argv <= List.length argv
  /\ (boundary argv < List.length argv ->
      1 <= boundary argv /\ argv_at argv (boundary argv) = "--")
  /\ (forall i, 1 <= i -> i < boundary argv -> argv_at argv i <> "--").
Proof.
  destruct argv as [|prog rest]; simpl.
  - repeat split; lia.
  - pose proof (first_dashdash_le rest) as Hle.
    split; [lia|]. split.
    + intros H. split; [lia|]. apply (first_dashdash_at rest). lia.
    + intros i Hi1 Hi2. destruct i as [|i]; [lia|].
      apply (first_dashdash_before rest i). lia.
Qed.

End BoundaryFacts.

(** ** [find_argument] against the flag boundary *)

Section FindArgumentFacts.

Variable name : string.

Lemma find_argument_none_iff (argv : list string) :
  find_argument name argv = None <->
  forall i, 1 <= i -> i < boundary argv ->
    ~ token_matches name (argv_at argv i).
Proof.
  unfold find_argument. rewrite flag_count_boundary.
  rewrite search_loop_none_iff by lia. split.
  - intros H i H1 H2. apply search_body_none_iff, H; lia.
  - intros H k H1 H2. apply search_body_none_iff, H; lia.
Qed.

Lemma find_argument_at_first (argv : list string) (i : nat) (r : string) :
  1 <= i -> i < boundary argv ->
  (forall j, 1 <= j -> j < i -> ~ token_matches name (argv_at argv j)) ->
  search_body name argv i = Some r ->
  find_argument name argv = Some r.
Proof.
  intros H1 H2 Hfirst Hat. unfold find_argument. rewrite flag_count_boundary.
  apply (search_loop_first name argv _ _ 1 i); try lia; auto.
  intros k Hk1 Hk2. apply search_body_none_iff, Hfirst; lia.
Qed.

(** The body at [i] reads [argv[i]], [argv[i + 1]] and whether [i] is the
    last index, and nothing else. *)
Lemma search_body_ext (argv argv' : list string) (i : nat) :
  argv_at argv i = argv_at argv' i ->
  argv_at argv (i + 1) = argv_at argv' (i + 1) ->
  (i =? List.length argv - 1)%nat = (i =? List.length argv' - 1)%nat ->
  search_body name argv i = search_body name argv' i.
Proof. intros H1 H2 H3. unfold search_body. now rewrite H1, H2, H3. Qed.

Lemma search_loop_ext (argv argv' : list string) (flag_count steps i : nat) :
  (forall k, i <= k -> k < flag_count ->
     search_body name argv k = search_body name argv' k) ->
  search_loop name argv flag_count steps i
  = search_loop name argv' flag_count steps i.
Proof.
  revert i. induction steps as [|steps IH]; intros i H; [reflexivity|].
  simpl. destruct (i <? flag_count)%nat eqn:L; [|reflexivity].
  apply Nat.ltb_lt in L. rewrite <- (H i) by lia.
  destruct (search_body name argv i); [reflexivity|].
  apply IH. intros k Hk1 Hk2. apply H; lia.
Qed.

(** The program name is never read. *)
Lemma find_argument_program_name (prog prog' : string) (rest : list string) :
  find_argument name (prog :: rest) = find_argument name (prog' :: rest).
Proof.
  unfold find_argument. rewrite !flag_count_boundary.
  change (boundary (prog' :: rest)) with (boundary (prog :: rest)).
  change (List.length (prog' :: rest)) with (List.length (prog :: rest)).
  apply search_loop_ext. intros k Hk1 Hk2.
  destruct k as [|k]; [lia|]. now apply search_body_ext.
Qed.

Lemma first_dashdash_app (pre post : list string) :
  first_dashdash (pre ++ "--" :: post) = first_dashdash (pre ++ ["--"]).
Proof.
  induction pre as [|t pre IH]; simpl; [reflexivity|].
  now destruct (String.eqb t "--"); [|rewrite IH].
Qed.

Lemma first_dashdash_app_le (pre : list string) :
  first_dashdash (pre ++ ["--"]) <= List.length pre.
Proof.
  induction pre as [|t pre IH]; simpl; [lia|].
  destruct (String.eqb t "--"); lia.
Qed.

Lemma nth_app_dashdash (pre post post' : list string) (k : nat) :
  k <= List.length pre ->
  nth k (pre ++ "--" :: post) "" = nth k (pre ++ "--" :: post') "".
Proof.
  revert k. induction pre as [|t pre IH]; intros k H; simpl in H.
  - now replace k with 0 by lia.
  - destruct k as [|k]; [reflexivity|]. simpl. apply IH. lia.
Qed.

(** What follows the first ["--"] is never read. *)
Lemma find_argument_after_boundary (prog : string)
    (pre post post' : list string) :
  find_argument name (prog :: pre ++ "--" :: post)
  = find_argument name (prog :: pre ++ "--" :: post').
Proof.
  unfold find_argument. rewrite !flag_count_boundary.
  assert (B : boundary (prog :: pre ++ "--" :: post')
              = boundary (prog :: pre ++ "--" :: post)).
  { unfold boundary.
    now rewrite (first_dashdash_app pre post), (first_dashdash_app pre post'). }
  rewrite B.
  assert (L : boundary (prog :: pre ++ "--" :: post) <= S (List.length pre)).
  { unfold boundary. rewrite (first_dashdash_app pre post).
    pose proof (first_dashdash_app_le pre). lia. }
  apply search_loop_ext. intros k Hk1 Hk2.
  destruct k as [|k]; [lia|].
  apply search_body_ext.
  - apply (nth_app_dashdash pre post post' k). lia.
  - replace (S k + 1) with (S (S k)) by lia.
    apply (nth_app_dashdash pre post post' (S k)). lia.
  - simpl List.length. rewrite !length_app. simpl List.length.
    replace (S k =? S (List.length pre + S (List.length post)) - 1)%nat
      with false by (symmetry; apply Nat.eqb_neq; lia).
    symmetry. apply Nat.eqb_neq. lia.
Qed.

End FindArgumentFacts.

(** The first matching token decides the result. *)
Lemma find_argument_first_match_aux (name : string) (argv : list string)
    (i : nat) :
  1 <= i -> i < boundary argv ->
  (forall j, 1 <= j -> j < i -> ~ token_matches name (argv_at argv j)) ->
  (argv_at argv i = name ->
   S i = boundary argv \/ begins_with_dash (argv_at argv (S i)) = true ->
   find_argument name argv = Some "")
  /\ (forall value, argv_at argv i = name ++ "=" ++ value ->
      find_argument name argv = Some value)
  /\ (argv_at argv i = name ->
      S i <> boundary argv -> begins_with_dash (argv_at argv (S i)) = false ->
      find_argument name argv = Some (argv_at argv (S i))).
Proof.
  intros H1 H2 Hfirst.
  destruct (boundary_spec argv) as (Hle & Hat & _).
  split; [|split].
  - intros E D. apply (find_argument_at_first name argv i); auto.
    rewrite (search_body_exact _ _ _ E), Nat.add_1_r. f_equal.
    destruct D as [D|D].
    + destruct (Nat.eq_dec (boundary argv) (List.length argv)) as [L|L].
      * replace (i =? List.length argv - 1)%nat with true
          by (symmetry; apply Nat.eqb_eq; lia).
        reflexivity.
      * destruct Hat as [_ Hat]; [lia|]. rewrite D, Hat. simpl.
        now rewrite orb_true_r.
    + rewrite D. now rewrite orb_true_r.
  - intros value E. apply (find_argument_at_first name argv i); auto.
    now apply search_body_inline.
  - intros E N D. apply (find_argument_at_first name argv i); auto.
    rewrite (search_body_exact _ _ _ E), Nat.add_1_r, D.
    replace (i =? List.length argv - 1)%nat with false
      by (symmetry; apply Nat.eqb_neq; lia).
    reflexivity.
Qed.


(** * The properties of the specification *)

(** C2. [find_argument] returns "not found" exactly when no token at an
    index in [1, boundary) matches the name, exactly or as the name followed
    by ['=']. The boundary is the index of the first ["--"] after the
    program name, or the length of the vector when there is none. The token
    at index 0 and the tokens after the boundary have no effect on the
    result. *)
Theorem find_argument_not_found_iff (name : string) (argv : list string) :
  (boundary argv <= List.length argv
   /\ (boundary argv < List.length argv ->
       1 <= boundary argv /\ argv_at argv (boundary argv) = "--")
   /\ (forall i, 1 <= i -> i < boundary argv -> argv_at argv i <> "--"))
  /\ (find_argument name argv = None <->
      forall i, 1 <= i -> i < boundary argv ->
        ~ token_matches name (argv_at argv i))
  /\ (forall prog prog' rest,
        find_argument name (prog :: rest) = find_argument name (prog' :: rest))
  /\ (forall prog pre post post',
        find_argument name (prog :: pre ++ "--" :: post)
        = find_argument name (prog :: pre ++ "--" :: post')).
Proof.
  split; [apply boundary_spec|].
  split; [apply find_argument_none_iff|].
  split.
  - apply find_argument_program_name.
  - apply find_argument_after_boundary.
Qed.

(** C3. When some token at an index in [1, boundary) matches, the first
    such token decides the result. If it is the bare name and it is the
    last token before the boundary or the next token begins with ['-'] (the
    ["--"] of the boundary included), the result is the empty string. If it
    is [name=value], the result is [value]. Otherwise the result is the
    next token. *)
Theorem find_argument_first_match (name : string) (argv : list string)
    (i : nat) :
  1 <= i -> i < boundary argv ->
  token_matches name (argv_at argv i) ->
  (forall j, 1 <= j -> j < i -> ~ token_matches name (argv_at argv j)) ->
  (argv_at argv i = name ->
   S i = boundary argv \/ begins_with_dash (argv_at argv (S i)) = true ->
   find_argument name argv = Some "")
  /\ (forall value, argv_at argv i = name ++ "=" ++ value ->
      find_argument name argv = Some value)
  /\ (argv_at argv i = name ->
      S i <> boundary argv -> begins_with_dash (argv_at argv (S i)) = false ->
      find_argument name argv = Some (argv_at argv (S i))).
Proof.
  intros H1 H2 _ Hfirst. now apply find_argument_first_match_aux.
Qed.

(** The first match is a bare flag followed by a value; a later match is
    not used. *)
Lemma find_argument_first_match_witness :
  find_argument "x" ["prog"; "y"; "x"; "5"; "x=7"] = Some "5".
Proof.
  apply (find_argument_first_match "x" ["prog"; "y"; "x"; "5"; "x=7"] 2).
  - lia.
  - simpl. lia.
  - left. reflexivity.
  - intros j Hj1 Hj2. assert (j = 1) as -> by lia.
    intros [E|[value E]]; discriminate E.
  - reflexivity.
  - simpl. lia.
  - reflexivity.
Defined.

(** ** Boolean flags *)

Lemma is_nul_first (text : string) :
  is_nul (char_at text 0) = true <-> text = "".
Proof. destruct text; simpl; split; congruence. Qed.

Lemma find_bool_argument_value (name : string) (argv : list string)
    (text : string) :
  find_argument name argv = Some text ->
  find_bool_argument name argv =
    match text with
    | EmptyString => Return true
    | _ => Exit EXIT_FAILURE (InvalidBooleanValue text name)
    end.
Proof. intros H. unfold find_bool_argument. rewrite H. now destruct text. Qed.

(** C6. [find_bool_argument] returns false when no token before the
    boundary matches, returns true when the flag is found with an empty
    value, be it the bare name with no value after it or [name=], and
    exits with the diagnostic of a non-empty boolean value when the flag is
    found with a non-empty value. *)
Theorem find_bool_argument_cases (name : string) (argv : list string) :
  ((forall i, 1 <= i -> i < boundary argv ->
      ~ token_matches name (argv_at argv i)) ->
   find_bool_argument name argv = Return false)
  /\ (find_argument name argv = Some "" ->
      find_bool_argument name argv = Return true)
  /\ (forall i,
        1 <= i -> i < boundary argv ->
        (forall j, 1 <= j -> j < i -> ~ token_matches name (argv_at argv j)) ->
        (argv_at argv i = name
         /\ (S i = boundary argv \/ begins_with_dash (argv_at argv (S i)) = true))
        \/ argv_at argv i = name ++ "=" ->
        find_bool_argument name argv = Return true)
  /\ (forall text,
        find_argument name argv = Some text -> text <> "" ->
        find_bool_argument name argv
        = Exit EXIT_FAILURE (InvalidBooleanValue text name)).
Proof.
  split; [|split; [|split]].
  - intros H. apply find_argument_none_iff in H.
    unfold find_bool_argument. now rewrite H.
  - intros H. now rewrite (find_bool_argument_value _ _ _ H).
  - intros i H1 H2 Hfirst Hform.
    assert (M : token_matches name (argv_at argv i)).
    { destruct Hform as [[E _]|E]; [now left|]. right. now exists "". }
    destruct (find_argument_first_match_aux name argv i H1 H2 Hfirst)
      as (Bare & Inline & _).
    assert (F : find_argument name argv = Some "").
    { destruct Hform as [[E D]|E]; [now apply Bare|]. now apply Inline. }
    now rewrite (find_bool_argument_value _ _ _ F).
  - intros text H N. rewrite (find_bool_argument_value _ _ _ H).
    now destruct text.
Qed.

(** The four cases on vectors with the flag [v]. *)
Lemma find_bool_argument_cases_witness :
  find_bool_argument "v" ["prog"; "w"] = Return false
  /\ find_bool_argument "v" ["prog"; "v="] = Return true
  /\ find_bool_argument "v" ["prog"; "v"; "--"; "yes"] = Return true
  /\ find_bool_argument "v" ["prog"; "v=yes"]
     = Exit EXIT_FAILURE (InvalidBooleanValue "yes" "v").
Proof.
  split; [|split; [|split]].
  - apply (find_bool_argument_cases "v" ["prog"; "w"]).
    intros i H1 H2. simpl in H2. assert (i = 1) as -> by lia.
    intros [E|[value E]]; discriminate E.
  - apply (find_bool_argument_cases "v" ["prog"; "v="]). reflexivity.
  - destruct (find_bool_argument_cases "v" ["prog"; "v"; "--"; "yes"])
      as (_ & _ & H & _).
    apply (H 1); simpl; try lia. left. split; [reflexivity|]. now left.
  - apply (find_bool_argument_cases "v" ["prog"; "v=yes"]);
      [reflexivity|discriminate].
Defined.

(** C8. When the first matching token before the boundary is the bare name
    and the token after it is the empty string, [find_argument] takes that
    token as the value and returns the empty string, which is what it
    returns for a flag without a value; [find_bool_argument] then returns
    true. *)
Theorem find_argument_empty_next_token (name : string) (argv : list string)
    (i : nat) :
  1 <= i -> i < boundary argv ->
  (forall j, 1 <= j -> j < i -> ~ token_matches name (argv_at argv j)) ->
  argv_at argv i = name ->
  S i < List.length argv -> argv_at argv (S i) = "" ->
  find_argument name argv = Some (argv_at argv (S i))
  /\ find_argument name argv = Some ""
  /\ find_bool_argument name argv = Return true.
Proof.
  intros H1 H2 Hfirst E L V.
  destruct (boundary_spec argv) as (_ & Hat & _).
  assert (N : S i <> boundary argv).
  { intros B. destruct Hat as [_ Hat]; [lia|]. rewrite <- B in Hat. congruence. }
  destruct (find_argument_first_match_aux name argv i H1 H2 Hfirst)
    as (_ & _ & Next).
  assert (F : find_argument name argv = Some (argv_at argv (S i))).
  { apply Next; auto. now rewrite V. }
  split; [assumption|]. rewrite V in F. split; [assumption|].
  now rewrite (find_bool_argument_value _ _ _ F).
Qed.

(** A bare [--v] followed by an empty token. *)
Lemma find_argument_empty_next_token_witness :
  find_argument "--v" ["prog"; "--v"; ""; "--w"] = Some ""
  /\ find_bool_argument "--v" ["prog"; "--v"; ""; "--w"] = Return true.
Proof.
  destruct (find_argument_empty_next_token "--v" ["prog"; "--v"; ""; "--w"] 1)
    as (_ & F & B).
  - lia.
  - simpl. lia.
  - intros j Hj1 Hj2. lia.
  - reflexivity.
  - simpl. lia.
  - reflexivity.
  - split; assumption.
Defined.

(** ** Enumerated flags *)

Lemma enum_loop_none_iff (text : string) (known_values : list string)
    (i : nat) :
  enum_loop text known_values i = None <-> ~ In text known_values.
Proof.
  revert i. induction known_values as [|value others IH]; intros i; simpl.
  - tauto.
  - rewrite strcmp_eqb.
    destruct (String.eqb_spec text value) as [->|N].
    + split; [discriminate|]. intros H. elim H. now left.
    + rewrite IH. split.
      * intros H [E|E]; [congruence|auto].
      * intros H E. apply H. now right.
Qed.

Lemma enum_loop_some (text : string) (known_values : list string)
    (i j : nat) :
  enum_loop text known_values i = Some j ->
  i <= j
  /\ nth_error known_values (j - i) = Some text
  /\ (forall k, k < j - i -> nth_error known_values k <> Some text).
Proof.
  revert i. induction known_values as [|value others IH]; intros i; simpl.
  - discriminate.
  - rewrite strcmp_eqb.
    destruct (String.eqb_spec text value) as [->|N].
    + intros H. injection H as <-. rewrite Nat.sub_diag.
      repeat split; auto. intros k Hk. lia.
    + intros H. apply IH in H. destruct H as (H1 & H2 & H3).
      replace (j - i) with (S (j - S i)) by lia.
      repeat split; [lia|assumption|].
      intros k Hk. destruct k as [|k]; simpl; [congruence|].
      apply H3. lia.
Qed.

(** C9. When the flag is found, [find_enum_argument] does not use
    [default_index]: the text found, the empty text of a bare flag
    included, is compared with [known_values]; the call returns the index of
    the first equal value, and exits with the diagnostic of an unrecognized
    enum value when there is none, whatever [default_index] is. *)
Theorem find_enum_argument_present (name : string) (default_index : Z)
    (known_values : list string) (argv : list string) (text : string) :
  find_argument name argv = Some text ->
  (~ In text known_values ->
   find_enum_argument name default_index known_values argv
   = Exit EXIT_FAILURE
       (UnrecognizedEnumValue text name
          (recognized_values known_values default_index 0)))
  /\ (In text known_values ->
      exists i,
        find_enum_argument name default_index known_values argv
        = Return (to_int (Z.of_nat i))
        /\ nth_error known_values i = Some text
        /\ (forall k, k < i -> nth_error known_values k <> Some text))
  /\ (forall other_default r,
        find_enum_argument name default_index known_values argv = Return r ->
        find_enum_argument name other_default known_values argv = Return r).
Proof.
  intros F. unfold find_enum_argument. rewrite F. split; [|split].
  - intros N. apply (enum_loop_none_iff text known_values 0) in N.
    now rewrite N.
  - intros I. destruct (enum_loop text known_values 0) as [i|] eqn:E.
    + exists i. apply enum_loop_some in E. destruct E as (_ & E2 & E3).
      rewrite Nat.sub_0_r in E2, E3. auto.
    + apply enum_loop_none_iff in E. contradiction.
  - intros other_default r.
    destruct (enum_loop text known_values 0); [auto|discriminate].
Qed.

(** A bare enum flag with default index 1: the default is not used. *)
Lemma find_enum_argument_present_witness :
  find_enum_argument "mode" 1 ["a"; "b"; "c"] ["prog"; "mode"]
  = Exit EXIT_FAILURE
      (UnrecognizedEnumValue "" "mode" [("a", false); ("b", true); ("c", false)]).
Proof.
  apply (find_enum_argument_present "mode" 1 ["a"; "b"; "c"] ["prog"; "mode"] "").
  - reflexivity.
  - simpl. intros [E|[E|[E|E]]]; try discriminate E. exact E.
Defined.

(** ** [strtol] and base-10 integer texts *)

Section StrtolFacts.

Lemma digit_not_space (c : ascii) :
  is_digit c = true -> isspace c = false.
Proof.
  destruct c as [[] [] [] [] [] [] [] []]; cbv; congruence.
Qed.

Lemma split_sign_minus (s : string) :
  split_sign (String "-" s) = (true, s).
Proof. reflexivity. Qed.

Lemma split_sign_plus (s : string) :
  split_sign (String "+" s) = (false, s).
Proof. reflexivity. Qed.

Lemma split_sign_other (c : ascii) (s : string) :
  c <> "-"%char -> c <> "+"%char ->
  split_sign (String c s) = (false, String c s).
Proof.
  intros N1 N2.
  destruct c as [[] [] [] [] [] [] [] []]; try reflexivity;
    [now elim N1 | now elim N2].
Qed.

Lemma split_sign_digit (c : ascii) (s : string) :
  is_digit c = true -> split_sign (String c s) = (false, String c s).
Proof.
  intros D. apply split_sign_other; intros ->; discriminate D.
Qed.

Lemma skip_spaces_append (spaces s : string) :
  all_chars isspace spaces = true ->
  skip_spaces (spaces ++ s) = skip_spaces s.
Proof.
  induction spaces as [|c spaces IH]; simpl; [reflexivity|].
  intros H. apply andb_true_iff in H. destruct H as [H1 H2].
  rewrite H1. auto.
Qed.

Lemma skip_spaces_split (text : string) :
  exists spaces,
    text = spaces ++ skip_spaces text /\ all_chars isspace spaces = true.
Proof.
  induction text as [|c text (spaces & E & A)]; simpl.
  - now exists "".
  - destruct (isspace c) eqn:S.
    + exists (String c spaces). simpl. rewrite S, A.
      split; [now f_equal|reflexivity].
    + now exists "".
Qed.

Lemma skip_spaces_stop (c : ascii) (s : string) :
  isspace c = false -> skip_spaces (String c s) = String c s.
Proof. intros H. simpl. now rewrite H. Qed.

Lemma pow10_succ (n : nat) :
  (10 ^ Z.of_nat (S n) = 10 * 10 ^ Z.of_nat n)%Z.
Proof. rewrite Nat2Z.inj_succ. apply Z.pow_succ_r. lia. Qed.

Lemma decimal_value_cons (c : ascii) (digits : string) :
  decimal_value (String c digits)
  = (match digit_value c with Some d => d | None => 0 end
     * 10 ^ Z.of_nat (String.length digits) + decimal_value digits)%Z.
Proof. reflexivity. Qed.

Lemma read_digits_all (digits : string) (acc : Z) :
  all_chars is_digit digits = true ->
  read_digits digits acc
  = ((acc * 10 ^ Z.of_nat (String.length digits) + decimal_value digits)%Z, "").
Proof.
  revert acc. induction digits as [|c digits IH]; intros acc H.
  - simpl. f_equal. lia.
  - cbn [all_chars] in H. apply andb_true_iff in H. destruct H as [H1 H2].
    unfold is_digit in H1. cbn [read_digits].
    rewrite decimal_value_cons. cbn [String.length].
    destruct (digit_value c) as [d|]; [|discriminate].
    rewrite (IH _ H2), pow10_succ. f_equal. ring.
Qed.

Lemma read_digits_split (s : string) (acc v : Z) (rest : string) :
  read_digits s acc = (v, rest) ->
  exists digits,
    s = digits ++ rest
    /\ all_chars is_digit digits = true
    /\ v = (acc * 10 ^ Z.of_nat (String.length digits) + decimal_value digits)%Z.
Proof.
  revert acc. induction s as [|c s IH]; intros acc; cbn [read_digits].
  - intros H. injection H as <- <-. exists "". simpl. repeat split. lia.
  - destruct (digit_value c) as [d|] eqn:D.
    + intros H. apply IH in H. destruct H as (digits & E & A & V).
      exists (String c digits). rewrite decimal_value_cons.
      cbn [all_chars String.length append]. rewrite A. unfold is_digit.
      rewrite D, pow10_succ, V. repeat split; [now f_equal|ring].
    + intros H. injection H as <- <-. exists "". simpl. repeat split. lia.
Qed.

Lemma starts_with_digit_all (digits : string) :
  digits <> "" -> all_chars is_digit digits = true ->
  starts_with_digit digits = true.
Proof.
  destruct digits as [|c digits]; [congruence|]. simpl.
  intros _ H. apply andb_true_iff in H. destruct H as [H _].
  exact H.
Qed.

Lemma strtol_digits (negative : bool) (text digits : string) :
  digits <> "" -> all_chars is_digit digits = true ->
  split_sign (skip_spaces text) = (negative, digits) ->
  strtol text
  = (clamp_long (if negative then - decimal_value digits
                 else decimal_value digits), "").
Proof.
  intros N A S. unfold strtol. rewrite S.
  rewrite (starts_with_digit_all _ N A), (read_digits_all _ _ A).
  simpl. reflexivity.
Qed.

(** A text that is a base-10 integer as a whole is converted up to its
    end. *)
Lemma strtol_integer_text (text : string) (v : Z) :
  integer_text text v -> strtol text = (clamp_long v, "").
Proof.
  intros (spaces & digits & S & N & A & Form).
  assert (D : exists c digits', digits = String c digits' /\ is_digit c = true).
  { destruct digits as [|c digits']; [congruence|]. exists c, digits'.
    simpl in A. apply andb_true_iff in A. now destruct A. }
  destruct D as (c & digits' & D & Dc).
  destruct Form as [[E V]|[[E V]|[E V]]]; subst text v.
  - apply (strtol_digits false); auto.
    rewrite (skip_spaces_append _ _ S). rewrite D.
    rewrite (skip_spaces_stop _ _ (digit_not_space _ Dc)).
    now apply split_sign_digit.
  - apply (strtol_digits false); auto.
    now rewrite (skip_spaces_append _ _ S).
  - apply (strtol_digits true); auto.
    now rewrite (skip_spaces_append _ _ S).
Qed.

Lemma starts_with_digit_first (s : string) :
  starts_with_digit s = true ->
  exists c s', s = String c s' /\ is_digit c = true.
Proof.
  destruct s as [|c s']; simpl; [discriminate|]. intros H. now exists c, s'.
Qed.

(** A non-empty text converted up to its end is a base-10 integer as a
    whole. *)
Lemma strtol_whole_text (text : string) (i : Z) :
  text <> "" -> strtol text = (i, "") ->
  exists v, integer_text text v /\ i = clamp_long v.
Proof.
  intros N. unfold strtol.
  destruct (skip_spaces_split text) as (spaces & E & S).
  destruct (split_sign (skip_spaces text)) as [negative body] eqn:Sg.
  destruct (starts_with_digit body) eqn:SD.
  - destruct (read_digits body 0) as [v rest] eqn:R.
    intros H. injection H as <- ->.
    apply read_digits_split in R. destruct R as (digits & B & A & V).
    rewrite append_empty_r in B. subst body. simpl in V.
    assert (ND : digits <> "").
    { intros ->. discriminate SD. }
    assert (T : skip_spaces text
                = (if negative then "-" ++ digits else digits)
                \/ (negative = false /\ skip_spaces text = "+" ++ digits)).
    { destruct (skip_spaces text) as [|c s].
      - cbn in Sg. injection Sg as <- <-. now left.
      - destruct (Ascii.eqb_spec c "-"%char) as [->|N1].
        + rewrite split_sign_minus in Sg. injection Sg as <- <-. now left.
        + destruct (Ascii.eqb_spec c "+"%char) as [->|N2].
          * rewrite split_sign_plus in Sg. injection Sg as <- <-. now right.
          * rewrite (split_sign_other _ _ N1 N2) in Sg.
            injection Sg as <- <-. now left. }
    exists (if negative then (- decimal_value digits)%Z else decimal_value digits).
    split.
    + exists spaces, digits. repeat split; auto.
      destruct T as [T|[-> T]]; rewrite T in E.
      * destruct negative; [right; right|left]; now split.
      * right. left. now split.
    + subst v. now destruct negative.
  - intros H. injection H as _ ->. congruence.
Qed.

Lemma clamp_long_in_int (v : Z) :
  (INT_MIN <= clamp_long v <= INT_MAX)%Z -> clamp_long v = v.
Proof.
  unfold clamp_long, INT_MIN, INT_MAX, LONG_MIN, LONG_MAX.
  destruct (v <? - 2 ^ 63)%Z eqn:A; [lia|].
  destruct (2 ^ 63 - 1 <? v)%Z eqn:B; [lia|]. reflexivity.
Qed.

Lemma clamp_long_outside (v lo hi : Z) :
  (INT_MIN <= lo)%Z -> (hi <= INT_MAX)%Z ->
  (v < lo \/ hi < v)%Z -> (clamp_long v < lo \/ hi < clamp_long v)%Z.
Proof.
  unfold clamp_long, INT_MIN, INT_MAX, LONG_MIN, LONG_MAX.
  intros H1 H2 H.
  destruct (v <? - 2 ^ 63)%Z eqn:A; [lia|].
  destruct (2 ^ 63 - 1 <? v)%Z eqn:B; lia.
Qed.

Lemma to_int_in_range (i : Z) :
  (INT_MIN <= i <= INT_MAX)%Z -> to_int i = i.
Proof.
  unfold to_int, INT_MIN, INT_MAX. intros H.
  rewrite Z.mod_small by lia. lia.
Qed.

End StrtolFacts.

(** ** Integer flags *)

Section IntFacts.

Variables (name : string) (default_value min_value max_value : Z).
Variable argv : list string.

Lemma int_without_value_cases :
  ((default_value < min_value \/ max_value < default_value)%Z ->
   int_without_value name default_value min_value max_value
   = Exit EXIT_FAILURE (MissingRequiredValue IntFlag name []))
  /\ ((min_value <= default_value <= max_value)%Z ->
      int_without_value name default_value min_value max_value
      = Return default_value).
Proof.
  unfold int_without_value. split; intros H.
  - replace ((default_value <? min_value)%Z || (default_value >? max_value)%Z)
      with true; [reflexivity|].
    symmetry. apply orb_true_iff. rewrite Z.ltb_lt, Z.gtb_ltb, Z.ltb_lt. lia.
  - replace ((default_value <? min_value)%Z || (default_value >? max_value)%Z)
      with false; [reflexivity|].
    symmetry. apply orb_false_iff. rewrite Z.ltb_ge, Z.gtb_ltb, Z.ltb_ge. lia.
Qed.

(** With a non-empty text the call is decided by [strtol]. *)
Lemma find_int_argument_text (text : string) :
  find_argument name argv = Some text -> text <> "" ->
  find_int_argument name default_value min_value max_value argv =
    let '(i, processed) := strtol text in
    if negb (is_nul (char_at processed 0))
    then Exit EXIT_FAILURE (InvalidIntegerValue text name)
    else if (i <? min_value)%Z || (i >? max_value)%Z
    then Exit EXIT_FAILURE (IntegerOutOfRange text name min_value i max_value)
    else Return (to_int i).
Proof.
  intros F N. unfold find_int_argument. rewrite F.
  destruct (is_nul (char_at text 0)) eqn:Z; [|reflexivity].
  apply is_nul_first in Z. contradiction.
Qed.

Lemma find_int_argument_not_integer (text : string) :
  find_argument name argv = Some text -> text <> "" ->
  ~ (exists v, integer_text text v) ->
  find_int_argument name default_value min_value max_value argv
  = Exit EXIT_FAILURE (InvalidIntegerValue text name).
Proof.
  intros F N H. rewrite (find_int_argument_text _ F N).
  destruct (strtol text) as [i processed] eqn:S.
  destruct (is_nul (char_at processed 0)) eqn:Z; [|reflexivity].
  apply is_nul_first in Z. subst processed.
  destruct (strtol_whole_text _ _ N S) as (v & I & _). elim H. now exists v.
Qed.

Lemma find_int_argument_outside (text : string) (v : Z) :
  (INT_MIN <= min_value)%Z -> (max_value <= INT_MAX)%Z ->
  find_argument name argv = Some text -> text <> "" ->
  integer_text text v -> (v < min_value \/ max_value < v)%Z ->
  find_int_argument name default_value min_value max_value argv
  = Exit EXIT_FAILURE
      (IntegerOutOfRange text name min_value (clamp_long v) max_value).
Proof.
  intros B1 B2 F N I O. rewrite (find_int_argument_text _ F N).
  rewrite (strtol_integer_text _ _ I). simpl.
  apply (clamp_long_outside _ _ _ B1 B2) in O.
  replace ((clamp_long v <? min_value)%Z || (clamp_long v >? max_value)%Z)
    with true; [reflexivity|].
  symmetry. apply orb_true_iff. rewrite Z.ltb_lt, Z.gtb_ltb, Z.ltb_lt. lia.
Qed.

Lemma find_int_argument_inside (text : string) (v : Z) :
  (INT_MIN <= min_value)%Z -> (max_value <= INT_MAX)%Z ->
  find_argument name argv = Some text -> text <> "" ->
  integer_text text v -> (min_value <= v <= max_value)%Z ->
  find_int_argument name default_value min_value max_value argv = Return v.
Proof.
  intros B1 B2 F N I O. rewrite (find_int_argument_text _ F N).
  rewrite (strtol_integer_text _ _ I). simpl.
  assert (C : clamp_long v = v).
  { unfold clamp_long, INT_MIN, INT_MAX, LONG_MIN, LONG_MAX in *.
    destruct (v <? - 2 ^ 63)%Z eqn:A; [lia|].
    destruct (2 ^ 63 - 1 <? v)%Z eqn:B; [lia|]. reflexivity. }
  rewrite C.
  replace ((v <? min_value)%Z || (v >? max_value)%Z) with false.
  - rewrite to_int_in_range; [reflexivity|lia].
  - symmetry. apply orb_false_iff. rewrite Z.ltb_ge, Z.gtb_ltb, Z.ltb_ge. lia.
Qed.

Lemma find_int_argument_returned (text : string) (r : Z) :
  (INT_MIN <= min_value)%Z -> (max_value <= INT_MAX)%Z ->
  find_argument name argv = Some text -> text <> "" ->
  find_int_argument name default_value min_value max_value argv = Return r ->
  integer_text text r /\ (min_value <= r <= max_value)%Z.
Proof.
  intros B1 B2 F N. rewrite (find_int_argument_text _ F N).
  destruct (strtol text) as [i processed] eqn:S.
  destruct (is_nul (char_at processed 0)) eqn:Z; [|discriminate].
  apply is_nul_first in Z. subst processed. simpl.
  destruct ((i <? min_value)%Z || (i >? max_value)%Z) eqn:O; [discriminate|].
  apply orb_false_iff in O. rewrite Z.ltb_ge, Z.gtb_ltb, Z.ltb_ge in O.
  intros H. injection H as <-.
  destruct (strtol_whole_text _ _ N S) as (v & I & C).
  rewrite to_int_in_range by lia.
  assert (V : clamp_long v = v) by (apply clamp_long_in_int; lia).
  split; [|lia]. congruence.
Qed.

End IntFacts.

(** C5. [find_int_argument]: when the flag is not found or is found with
    an empty value, the call exits asking for a value if the default lies
    outside [min, max], and returns the default otherwise. When a non-empty
    text is found, the call exits with the diagnostic of a non-integer
    value if the text is not a base-10 integer as a whole, exits with the
    diagnostic of an out-of-range integer if the integer lies outside
    [min, max], and returns the integer otherwise. [min] and [max] are
    values of type [int]. *)
Theorem find_int_argument_behaviour (name : string)
    (default_value min_value max_value : Z) (argv : list string) :
  (INT_MIN <= min_value)%Z -> (max_value <= INT_MAX)%Z ->
  (find_argument name argv = None \/ find_argument name argv = Some "" ->
   ((default_value < min_value \/ max_value < default_value)%Z ->
    find_int_argument name default_value min_value max_value argv
    = Exit EXIT_FAILURE (MissingRequiredValue IntFlag name []))
   /\ ((min_value <= default_value <= max_value)%Z ->
       find_int_argument name default_value min_value max_value argv
       = Return default_value))
  /\ (forall text,
        find_argument name argv = Some text -> text <> "" ->
        (~ (exists v, integer_text text v) ->
         find_int_argument name default_value min_value max_value argv
         = Exit EXIT_FAILURE (InvalidIntegerValue text name))
        /\ (forall v, integer_text text v ->
              (v < min_value \/ max_value < v)%Z ->
              find_int_argument name default_value min_value max_value argv
              = Exit EXIT_FAILURE
                  (IntegerOutOfRange text name min_value
                     (clamp_long v) max_value))
        /\ (forall v, integer_text text v ->
              (min_value <= v <= max_value)%Z ->
              find_int_argument name default_value min_value max_value argv
              = Return v)).
Proof.
  intros B1 B2. split.
  - intros F.
    assert (E : find_int_argument name default_value min_value max_value argv
                = int_without_value name default_value min_value max_value).
    { unfold find_int_argument. now destruct F as [-> | ->]. }
    rewrite E. apply int_without_value_cases.
  - intros text F N. split; [|split].
    + now apply find_int_argument_not_integer.
    + intros v. now apply find_int_argument_outside.
    + intros v. now apply find_int_argument_inside.
Qed.

Lemma integer_text_plain (digits : string) :
  digits <> "" -> all_chars is_digit digits = true ->
  integer_text digits (decimal_value digits).
Proof.
  intros N A. exists "", digits. repeat split; auto.
Qed.

(** The cases of the integer flag [n] with bounds 0 and 10. *)
Lemma find_int_argument_behaviour_witness :
  find_int_argument "n" 0 0 10 ["prog"] = Return 0%Z
  /\ find_int_argument "n" (-1) 0 10 ["prog"; "n"]
     = Exit EXIT_FAILURE (MissingRequiredValue IntFlag "n" [])
  /\ find_int_argument "n" 0 0 10 ["prog"; "n=7"] = Return 7%Z
  /\ find_int_argument "n" 0 0 10 ["prog"; "n=11"]
     = Exit EXIT_FAILURE (IntegerOutOfRange "11" "n" 0 11 10).
Proof.
  assert (B1 : (INT_MIN <= 0)%Z) by (unfold INT_MIN; lia).
  assert (B2 : (10 <= INT_MAX)%Z) by (unfold INT_MAX; lia).
  split; [|split; [|split]].
  - apply (find_int_argument_behaviour "n" 0 0 10 ["prog"] B1 B2).
    + left. reflexivity.
    + lia.
  - apply (find_int_argument_behaviour "n" (-1) 0 10 ["prog"; "n"] B1 B2).
    + right. reflexivity.
    + lia.
  - destruct (find_int_argument_behaviour "n" 0 0 10 ["prog"; "n=7"] B1 B2)
      as (_ & H).
    destruct (H "7") as (_ & _ & R); [reflexivity|discriminate|].
    apply (R 7%Z); [|lia].
    apply (integer_text_plain "7"); [discriminate|reflexivity].
  - destruct (find_int_argument_behaviour "n" 0 0 10 ["prog"; "n=11"] B1 B2)
      as (_ & H).
    destruct (H "11") as (_ & O & _); [reflexivity|discriminate|].
    apply (O 11%Z); [|lia].
    apply (integer_text_plain "11"); [discriminate|reflexivity].
Defined.

(** C10. [find_int_argument] compares the [long] given by [strtol] with the
    bounds before converting it to [int]: a text that is, as a whole, an
    integer outside [min, max] makes the call exit with the diagnostic of
    an out-of-range integer, also when the integer does not fit an [int] or
    a [long]; and a value returned for a text is the integer the text
    writes, within the bounds, never a wrapped or truncated one. [min] and
    [max] are values of type [int]. *)
Theorem find_int_argument_no_wrap (name : string)
    (default_value min_value max_value : Z) (argv : list string)
    (text : string) :
  (INT_MIN <= min_value)%Z -> (max_value <= INT_MAX)%Z ->
  find_argument name argv = Some text -> text <> "" ->
  (forall v, integer_text text v ->
     (v < min_value \/ max_value < v)%Z ->
     find_int_argument name default_value min_value max_value argv
     = Exit EXIT_FAILURE
         (IntegerOutOfRange text name min_value (clamp_long v) max_value))
  /\ (forall r,
        find_int_argument name default_value min_value max_value argv
        = Return r ->
        integer_text text r /\ (min_value <= r <= max_value)%Z).
Proof.
  intros B1 B2 F N. split.
  - intros v. now apply find_int_argument_outside.
  - intros r. now apply find_int_argument_returned.
Qed.

(** [4294967297] would be 1 after a conversion to [int], and
    [99999999999999999999] does not fit a [long]; both are rejected. *)
Lemma find_int_argument_no_wrap_witness :
  find_int_argument "n" 0 0 10 ["prog"; "n"; "4294967297"]
  = Exit EXIT_FAILURE (IntegerOutOfRange "4294967297" "n" 0 4294967297 10)
  /\ find_int_argument "n" 0 INT_MIN INT_MAX
       ["prog"; "n=99999999999999999999"]
     = Exit EXIT_FAILURE
         (IntegerOutOfRange "99999999999999999999" "n" INT_MIN LONG_MAX INT_MAX).
Proof.
  split.
  - assert (B1 : (INT_MIN <= 0)%Z) by (unfold INT_MIN; lia).
    assert (B2 : (10 <= INT_MAX)%Z) by (unfold INT_MAX; lia).
    destruct (find_int_argument_no_wrap "n" 0 0 10
                ["prog"; "n"; "4294967297"] "4294967297" B1 B2)
      as (O & _); [reflexivity|discriminate|].
    apply (O 4294967297%Z); [|lia].
    apply (integer_text_plain "4294967297"); [discriminate|reflexivity].
  - destruct (find_int_argument_no_wrap "n" 0 INT_MIN INT_MAX
                ["prog"; "n=99999999999999999999"] "99999999999999999999")
      as (O & _); [lia|lia|reflexivity|discriminate|].
    apply (O 99999999999999999999%Z); [|unfold INT_MAX; lia].
    apply (integer_text_plain "99999999999999999999");
      [discriminate|reflexivity].
Defined.

(** ** Comparisons of [float] values *)

Section FloatFacts.

Lemma SFcompare_refl (f : float) :
  f <> S754_nan -> SFcompare f f = Some Eq.
Proof.
  destruct f as [s|s| |s m e]; simpl; try congruence.
  - now destruct s.
  - intros _. rewrite Z.compare_refl, Pos.compare_cont_refl. now destruct s.
Qed.

Lemma SFcompare_antisym (a b : float) (c : comparison) :
  SFcompare a b = Some c -> SFcompare b a = Some (CompOpp c).
Proof.
  destruct a as [s|s| |s m e], b as [s'|s'| |s' m' e']; simpl;
    try discriminate; intros H; injection H as <-;
    try (destruct s; reflexivity);
    try (destruct s'; reflexivity);
    try (destruct s, s'; reflexivity).
  change (Pos.compare_cont Eq m' m) with (Pos.compare m' m).
  change (Pos.compare_cont Eq m m') with (Pos.compare m m').
  rewrite (Z.compare_antisym e e'), (Pos.compare_antisym m m').
  destruct s, s'; try reflexivity;
    destruct (e ?= e')%Z; simpl; try reflexivity;
    now destruct (m ?= m')%positive.
Qed.

Lemma SFcompare_total (a b : float) :
  a <> S754_nan -> b <> S754_nan -> exists c, SFcompare a b = Some c.
Proof.
  destruct a as [s|s| |s m e], b as [s'|s'| |s' m' e']; simpl;
    try congruence; eauto.
Qed.

(** Self-inequality holds for the NaN and for nothing else. *)
Lemma float_ne_self (f : float) : float_ne f f = true <-> f = S754_nan.
Proof.
  unfold float_ne, SFeqb. split.
  - destruct f as [s|s| |s m e]; auto; intros H;
      rewrite SFcompare_refl in H; discriminate.
  - now intros ->.
Qed.

Lemma float_ne_self_false (f : float) :
  float_ne f f = false <-> f <> S754_nan.
Proof.
  rewrite <- float_ne_self. destruct (float_ne f f); split; congruence.
Qed.

(** A comparison with the NaN is false. *)
Lemma float_nan_compare (f : float) :
  float_lt S754_nan f = false /\ float_gt S754_nan f = false
  /\ float_lt f S754_nan = false /\ float_gt f S754_nan = false
  /\ float_le S754_nan f = false /\ float_le f S754_nan = false.
Proof.
  unfold float_lt, float_gt, float_le, SFltb, SFleb.
  destruct f as [s|s| |s m e]; simpl; repeat split; reflexivity.
Qed.

(** Without a NaN, [a < b] is false exactly when [b <= a]. *)
Lemma float_lt_false_iff_le (a b : float) :
  a <> S754_nan -> b <> S754_nan ->
  (float_lt a b = false <-> float_le b a = true).
Proof.
  intros Na Nb. unfold float_lt, float_le, SFltb, SFleb.
  destruct (SFcompare_total a b Na Nb) as [c C].
  rewrite C, (SFcompare_antisym _ _ _ C).
  destruct c; simpl; split; congruence.
Qed.

End FloatFacts.

(** ** Float flags *)

Section FloatArgumentFacts.

Variables (name : string) (default_value min_value max_value : float).
Variable argv : list string.

Lemma find_float_argument_absent :
  find_argument name argv = None ->
  find_float_argument name default_value min_value max_value argv =
    if float_lt default_value min_value || float_gt default_value max_value
    then Exit EXIT_FAILURE (MissingRequiredValue FloatFlag name [])
    else Return default_value.
Proof. intros F. unfold find_float_argument. now rewrite F. Qed.

Lemma find_float_argument_parsed (text : string) (f : float) :
  find_argument name argv = Some text -> strtof text = (f, "") ->
  find_float_argument name default_value min_value max_value argv =
    if float_lt f min_value || float_gt f max_value || float_ne f f
    then Exit EXIT_FAILURE (FloatOutOfRange text name min_value f max_value)
    else Return f.
Proof. intros F S. unfold find_float_argument. now rewrite F, S. Qed.

End FloatArgumentFacts.

(** When the flag is found with an empty value, as for the token [name=],
    [find_float_argument] does not use the default: the empty text is given
    to [strtof], which converts nothing, gives 0 and leaves the end pointer
    on the terminating NUL, so the test for unconverted characters does not
    fire. The call returns 0 when neither [0 < min] nor [0 > max] holds and
    exits with the diagnostic of an out-of-range float otherwise. Only a
    flag that is not found reaches the check of the default. *)
Lemma find_float_argument_empty_value (name : string)
    (default_value min_value max_value : float) (argv : list string) :
  find_argument name argv = Some "" ->
  strtof "" = (float_zero, "")
  /\ find_float_argument name default_value min_value max_value argv
     = (if float_lt float_zero min_value || float_gt float_zero max_value
        then Exit EXIT_FAILURE
               (FloatOutOfRange "" name min_value float_zero max_value)
        else Return float_zero)
  /\ (forall other_default,
        find_float_argument name other_default min_value max_value argv
        = find_float_argument name default_value min_value max_value argv)
  /\ (forall argv',
        find_argument name argv' = None ->
        find_float_argument name default_value min_value max_value argv'
        = if float_lt default_value min_value
             || float_gt default_value max_value
          then Exit EXIT_FAILURE (MissingRequiredValue FloatFlag name [])
          else Return default_value).
Proof.
  intros F.
  assert (S : strtof "" = (float_zero, "")) by reflexivity.
  split; [exact S|]. split; [|split].
  - rewrite (find_float_argument_parsed _ _ _ _ _ _ _ F S).
    now rewrite orb_false_r.
  - intros other_default.
    now rewrite !(find_float_argument_parsed _ _ _ _ _ _ _ F S).
  - intros argv'. apply find_float_argument_absent.
Qed.

(** The integer path, for comparison, treats the empty value as a flag
    that is not found. *)
Lemma find_int_argument_empty_value (name : string)
    (default_value min_value max_value : Z) (argv : list string) :
  find_argument name argv = Some "" ->
  find_int_argument name default_value min_value max_value argv
  = int_without_value name default_value min_value max_value.
Proof. intros F. unfold find_int_argument. now rewrite F. Qed.

(** C1. An empty value given to a float flag should make the call exit
    with the diagnostic of a non-float value, the default not being used.
    The default is not used, but there is no diagnostic: with the token
    [x=] the value is empty, and the call with default 1 and bounds 0 and 1
    returns 0. *)
Lemma find_float_argument_empty_value_returns_zero :
  find_argument "x" ["prog"; "x="] = Some ""
  /\ strtof "" = (float_zero, "")
  /\ find_float_argument "x" float_one float_zero float_one ["prog"; "x="]
     = Return float_zero
  /\ find_float_argument "x" float_one float_zero float_one ["prog"; "x="]
     <> Exit EXIT_FAILURE (InvalidFloatValue "" "x").
Proof.
  split; [reflexivity|]. split; [reflexivity|]. split; [reflexivity|].
  intros H. vm_compute in H. discriminate H.
Qed.

(** C7, with the range test as the code has it. In [find_float_argument] a text converted up to its
    end is accepted exactly when the value is not the NaN and neither
    [value < min] nor [value > max] holds, and otherwise the call exits with
    the diagnostic of an out-of-range float; when neither bound is the NaN
    this is [min <= value <= max] with a value that is not the NaN. The NaN
    is the only value that differs from itself. For a flag that is not
    found the default is checked as on the integer path, with [<] and [>]:
    the call exits asking for a value exactly when [default < min] or
    [default > max], and both comparisons are false for a NaN default. *)
Theorem find_float_argument_range_check (name : string)
    (default_value min_value max_value : float) (argv : list string) :
  (forall text f,
     find_argument name argv = Some text -> strtof text = (f, "") ->
     (f = S754_nan \/ float_lt f min_value = true
      \/ float_gt f max_value = true ->
      find_float_argument name default_value min_value max_value argv
      = Exit EXIT_FAILURE (FloatOutOfRange text name min_value f max_value))
     /\ (f <> S754_nan -> float_lt f min_value = false ->
         float_gt f max_value = false ->
         find_float_argument name default_value min_value max_value argv
         = Return f)
     /\ (min_value <> S754_nan -> max_value <> S754_nan ->
         (find_float_argument name default_value min_value max_value argv
          = Return f
          <-> float_le min_value f = true /\ float_le f max_value = true
              /\ f <> S754_nan)))
  /\ (forall f, float_ne f f = true <-> f = S754_nan)
  /\ (find_argument name argv = None ->
      (find_float_argument name default_value min_value max_value argv
       = Exit EXIT_FAILURE (MissingRequiredValue FloatFlag name [])
       <-> float_lt default_value min_value = true
           \/ float_gt default_value max_value = true)
      /\ (float_lt default_value min_value = false ->
          float_gt default_value max_value = false ->
          find_float_argument name default_value min_value max_value argv
          = Return default_value)
      /\ (default_value = S754_nan ->
          float_lt default_value min_value = false
          /\ float_gt default_value max_value = false
          /\ find_float_argument name default_value min_value max_value argv
             = Return default_value))
  /\ (forall d lo hi : Z,
        find_argument name argv = None ->
        (find_int_argument name d lo hi argv
         = Exit EXIT_FAILURE (MissingRequiredValue IntFlag name [])
         <-> (d < lo \/ d > hi)%Z)).
Proof.
  split; [|split; [exact float_ne_self|split]].
  - intros text f F S.
    rewrite (find_float_argument_parsed _ _ _ _ _ _ _ F S).
    split; [|split].
    + intros [N|[L|G]].
      * apply float_ne_self in N. rewrite N. now rewrite orb_true_r.
      * now rewrite L.
      * rewrite G. now rewrite orb_true_r.
    + intros N L G. apply float_ne_self_false in N. now rewrite N, L, G.
    + intros Nmin Nmax.
      destruct (float_ne f f) eqn:N.
      * rewrite orb_true_r. split; [discriminate|].
        intros (_ & _ & Nf). apply float_ne_self in N. contradiction.
      * apply float_ne_self_false in N. rewrite orb_false_r.
        unfold float_gt.
        pose proof (float_lt_false_iff_le f min_value N Nmin) as L.
        pose proof (float_lt_false_iff_le max_value f Nmax N) as G.
        unfold float_lt in L, G |- *.
        destruct (SFltb f min_value), (SFltb max_value f); simpl.
        -- split; [discriminate|]. intros (A & _). apply L in A. discriminate.
        -- split; [discriminate|]. intros (A & _). apply L in A. discriminate.
        -- split; [discriminate|]. intros (_ & A & _). apply G in A.
           discriminate.
        -- split; [|reflexivity]. intros _.
           repeat split; [now apply L|now apply G|assumption].
  - intros F. rewrite (find_float_argument_absent _ _ _ _ _ F).
    split; [|split].
    + destruct (float_lt default_value min_value),
        (float_gt default_value max_value); simpl; split; auto;
        try discriminate; intros [H|H]; discriminate.
    + intros L G. now rewrite L, G.
    + intros ->. destruct (float_nan_compare min_value) as (L & _ & _ & _).
      destruct (float_nan_compare max_value) as (_ & G & _).
      now rewrite L, G.
  - intros d lo hi F. unfold find_int_argument. rewrite F.
    unfold int_without_value.
    destruct ((d <? lo)%Z || (d >? hi)%Z) eqn:O.
    + split; [|reflexivity]. intros _. apply orb_true_iff in O.
      rewrite Z.ltb_lt, Z.gtb_ltb, Z.ltb_lt in O. lia.
    + split; [discriminate|]. intros H. apply orb_false_iff in O.
      rewrite Z.ltb_ge, Z.gtb_ltb, Z.ltb_ge in O. lia.
Qed.

(** A NaN value is rejected; a NaN default is returned. *)
Lemma find_float_argument_range_check_witness :
  find_float_argument "x" float_zero float_zero float_one ["prog"; "x=nan"]
  = Exit EXIT_FAILURE (FloatOutOfRange "nan" "x" float_zero S754_nan float_one)
  /\ find_float_argument "x" S754_nan float_zero float_one ["prog"]
     = Return S754_nan.
Proof.
  split.
  - destruct (find_float_argument_range_check "x" float_zero float_zero
                float_one ["prog"; "x=nan"]) as (H & _).
    destruct (H "nan" S754_nan) as (E & _); [reflexivity|reflexivity|].
    apply E. now left.
  - destruct (find_float_argument_range_check "x" S754_nan float_zero
                float_one ["prog"]) as (_ & _ & H & _).
    destruct H as (_ & _ & D); [reflexivity|]. now apply D.
Defined.

(** With a NaN bound [min <= value] is false, and the call still returns
    the value: the test of the range is not [min <= value <= max] there. *)
Lemma find_float_argument_nan_bound_counterexample :
  strtof "0" = (float_zero, "")
  /\ float_le S754_nan float_zero = false
  /\ find_float_argument "x" float_zero S754_nan float_one ["prog"; "x=0"]
     = Return float_zero.
Proof. repeat split. Qed.

(** ** The scan of [check_for_unknown_arguments] *)

Section CheckFacts.

Lemma strstr_not_start_false (tok known : string) :
  prefix known tok = false ->
  match strstr tok known with Some 0 => true | _ => false end = false.
Proof.
  intros H. destruct (strstr tok known) as [[|k]|] eqn:E; try reflexivity.
  apply strstr_at_start in E. congruence.
Qed.

Lemma prefix_append_same (known a b : string) :
  prefix (known ++ a) (known ++ b) = prefix a b.
Proof.
  induction known as [|c known IH]; simpl; [reflexivity|].
  destruct (ascii_dec c c); [assumption|congruence].
Qed.

Lemma prefix_equals_sign (c : ascii) (rest : string) :
  prefix "=" (String c rest) = Ascii.eqb c "=".
Proof.
  change (prefix "=" (String c rest))
    with (if ascii_dec "=" c then prefix "" rest else false).
  destruct (ascii_dec "=" c) as [<-|N].
  - now destruct rest.
  - symmetry. apply Ascii.eqb_neq. congruence.
Qed.

(** The test of the inner loop, on strings. *)
Lemma known_test (tok known : string) :
  (match strstr tok known with Some 0 => true | _ => false end
   && (is_nul (char_at tok (strlen known))
       || is_char (char_at tok (strlen known)) "=")
   = String.eqb tok known || prefix (known ++ "=") tok)
  /\ (prefix known tok = true ->
      is_nul (char_at tok (strlen known)) = String.eqb tok known).
Proof.
  destruct (prefix known tok) eqn:P.
  - assert (S : strstr tok known = Some 0) by now apply strstr_at_start.
    apply prefix_iff_append in P. destruct P as [rest ->].
    rewrite S, char_at_append.
    destruct rest as [|c rest].
    + rewrite append_empty_r, String.eqb_refl. now split.
    + assert (N : String.eqb (known ++ String c rest) known = false).
      { apply String.eqb_neq. apply append_length_neq. }
      rewrite N, prefix_append_same, prefix_equals_sign. now split.
  - rewrite (strstr_not_start_false _ _ P). split; [|discriminate].
    symmetry. apply orb_false_iff. split.
    + apply String.eqb_neq. intros ->.
      assert (Q : prefix known known = true).
      { apply prefix_iff_append. exists "". now rewrite append_empty_r. }
      congruence.
    + destruct (prefix (known ++ "=") tok) eqn:Q; [|reflexivity].
      apply prefix_iff_append in Q. destruct Q as [rest ->].
      assert (R : prefix known ((known ++ "=") ++ rest) = true).
      { apply prefix_iff_append. exists ("=" ++ rest).
        apply append_assoc. }
      congruence.
Qed.

(** The inner loop finds the class of [argv[i]]; a bare flag steps over the
    next token when there is one and it does not begin with ['-']. *)
Lemma match_known_classify (known_arguments argv : list string) (i : nat) :
  match_known known_arguments argv i =
    match classify known_arguments (argv_at argv i) with
    | BareFlag =>
        if (i <? List.length argv - 1)%nat
           && negb (begins_with_dash (argv_at argv (i + 1)))
        then Some (i + 1) else Some i
    | InlineFlag => Some i
    | UnknownToken => None
    end.
Proof.
  induction known_arguments as [|known others IH]; [reflexivity|].
  cbn [match_known classify].
  destruct (known_test (argv_at argv i) known) as [T B].
  rewrite T, first_char_dash.
  destruct (String.eqb (argv_at argv i) known) eqn:E.
  - cbn [orb]. rewrite B; [reflexivity|].
    apply String.eqb_eq in E. rewrite E.
    apply prefix_iff_append. exists "". now rewrite append_empty_r.
  - cbn [orb]. destruct (prefix (known ++ "=") (argv_at argv i)) eqn:P.
    + rewrite B; [reflexivity|].
      apply prefix_iff_append in P. destruct P as [rest ->].
      apply prefix_iff_append. exists ("=" ++ rest).
      apply append_assoc.
    + exact IH.
Qed.

(** With enough steps the loop from index [i] is the scan of the tokens
    from [i] on. *)
Lemma check_loop_scan (known_arguments : list string)
    (for_mode : option string) (argv : list string) (steps i : nat) :
  i <= List.length argv -> List.length argv <= i + steps ->
  check_loop known_arguments for_mode argv steps i
  = outcome_of_scan known_arguments for_mode
      (first_unrecognized known_arguments (skipn i argv)).
Proof.
  revert i. induction steps as [|steps IH]; intros i H1 H2.
  - rewrite skipn_all2 by lia. reflexivity.
  - cbn [check_loop]. destruct (i <? List.length argv)%nat eqn:L.
    + apply Nat.ltb_lt in L. rewrite (skipn_cons_nth _ _ L).
      cbn [first_unrecognized]. rewrite strcmp_eqb.
      destruct (String.eqb (argv_at argv i) "--"); [reflexivity|].
      rewrite match_known_classify.
      destruct (classify known_arguments (argv_at argv i)).
      * destruct (Nat.eq_dec (S i) (List.length argv)) as [Last|More].
        -- replace (i <? List.length argv - 1)%nat with false
             by (symmetry; apply Nat.ltb_ge; lia).
           cbn [andb]. rewrite IH by lia.
           replace (i + 1) with (S i) by lia.
           now rewrite (skipn_all2 argv) by lia.
        -- replace (i <? List.length argv - 1)%nat with true
             by (symmetry; apply Nat.ltb_lt; lia).
           cbn [andb]. rewrite (skipn_cons_nth argv (S i)) by lia.
           replace (i + 1) with (S i) by lia.
           destruct (begins_with_dash (argv_at argv (S i))); cbn [negb].
           ++ rewrite IH by lia. replace (i + 1) with (S i) by lia.
              now rewrite (skipn_cons_nth argv (S i)) by lia.
           ++ rewrite IH by lia. now replace (S i + 1) with (S (S i)) by lia.
      * rewrite IH by lia. now replace (i + 1) with (S i) by lia.
      * reflexivity.
    + apply Nat.ltb_ge in L. rewrite skipn_all2 by lia. reflexivity.
Qed.

Lemma classify_bare (known_arguments : list string) (tok : string) :
  classify known_arguments tok = BareFlag -> In tok known_arguments.
Proof.
  induction known_arguments as [|known others IH]; simpl; [discriminate|].
  destruct (String.eqb_spec tok known) as [->|N]; [now left|].
  destruct (prefix (known ++ "=") tok); [discriminate|]. auto.
Qed.

Lemma classify_inline (known_arguments : list string) (tok : string) :
  classify known_arguments tok = InlineFlag ->
  exists known value, In known known_arguments /\ tok = known ++ "=" ++ value.
Proof.
  induction known_arguments as [|known others IH]; simpl; [discriminate|].
  destruct (String.eqb_spec tok known) as [->|N]; [discriminate|].
  destruct (prefix (known ++ "=") tok) eqn:P.
  - intros _. apply prefix_iff_append in P. destruct P as [rest ->].
    exists known, rest. split; [now left|].
    apply append_assoc.
  - intros H. destruct (IH H) as (k & v & I & E). exists k, v. auto.
Qed.

Lemma classify_unknown_iff (known_arguments : list string) (tok : string) :
  classify known_arguments tok = UnknownToken <->
  ~ In tok known_arguments
  /\ ~ (exists known value,
          In known known_arguments /\ tok = known ++ "=" ++ value).
Proof.
  induction known_arguments as [|known others IH]; simpl.
  - split; [|reflexivity]. intros _. split; [tauto|].
    intros (k & v & I & _). exact I.
  - destruct (String.eqb_spec tok known) as [->|N].
    + split; [discriminate|]. intros [H _]. elim H. now left.
    + destruct (prefix (known ++ "=") tok) eqn:P.
      * split; [discriminate|]. intros [_ H]. elim H.
        apply prefix_iff_append in P. destruct P as [rest ->].
        exists known, rest. split; [now left|].
        apply append_assoc.
      * rewrite IH. split.
        -- intros [A B]. split.
           ++ intros [E|I]; [congruence|auto].
           ++ intros (k & v & [K|I] & E).
              ** subst k.
                 assert (Q : prefix (known ++ "=") tok = true).
                 { apply prefix_iff_append. exists v. rewrite E.
                   symmetry. apply append_assoc. }
                 congruence.
              ** apply B. now exists k, v.
        -- intros [A B]. split.
           ++ intros I. apply A. now right.
           ++ intros (k & v & I & E). apply B. exists k, v. auto.
Qed.

(** The scan does not look at the tokens from the first ["--"] on. *)
Lemma first_unrecognized_before_boundary (known_arguments : list string)
    (n : nat) (tokens : list string) :
  List.length tokens <= n ->
  first_unrecognized known_arguments tokens
  = first_unrecognized known_arguments
      (firstn (first_dashdash tokens) tokens).
Proof.
  revert tokens. induction n as [|n IH]; intros tokens L.
  - destruct tokens; [reflexivity|simpl in L; lia].
  - destruct tokens as [|tok rest]; [reflexivity|].
    cbn [first_dashdash]. destruct (String.eqb tok "--") eqn:D.
    + cbn [firstn first_unrecognized]. now rewrite D.
    + cbn [firstn first_unrecognized]. rewrite D. simpl in L.
      destruct (classify known_arguments tok).
      * destruct rest as [|value rest']; [reflexivity|].
        cbn [first_dashdash]. destruct (String.eqb_spec value "--") as [->|N].
        -- reflexivity.
        -- cbn [firstn]. simpl in L. destruct (begins_with_dash value).
           ++ rewrite (IH (value :: rest')) by (simpl; lia).
              cbn [first_dashdash]. apply String.eqb_neq in N.
              now rewrite N.
           ++ apply IH. lia.
      * apply IH. lia.
      * reflexivity.
Qed.

End CheckFacts.

(** ** The known name that decides the class of a token *)

Section ClassFacts.

Lemma prefix_inline (known tok : string) :
  prefix (known ++ "=") tok = true <->
  exists value, tok = known ++ "=" ++ value.
Proof.
  rewrite prefix_iff_append. split; intros [value E]; exists value.
  - now rewrite E, append_assoc.
  - now rewrite E, append_assoc.
Qed.

(** The first name of the list that the token is equal to, or that the
    token continues with ['='], gives the class. *)
Lemma classify_first_fit (before after : list string) (known tok : string) :
  (forall other, In other before ->
     tok <> other /\ ~ (exists value, tok = other ++ "=" ++ value)) ->
  (tok = known -> classify (before ++ known :: after) tok = BareFlag)
  /\ (forall value, tok = known ++ "=" ++ value ->
      classify (before ++ known :: after) tok = InlineFlag).
Proof.
  induction before as [|other before IH]; intros H.
  - cbn [app classify]. split.
    + intros ->. now rewrite String.eqb_refl.
    + intros value E.
      replace (String.eqb tok known) with false.
      * replace (prefix (known ++ "=") tok) with true; [reflexivity|].
        symmetry. apply prefix_inline. now exists value.
      * symmetry. apply String.eqb_neq. rewrite E.
        apply append_length_neq.
  - cbn [app classify].
    destruct (H other (or_introl eq_refl)) as [N1 N2].
    apply String.eqb_neq in N1. rewrite N1.
    destruct (prefix (other ++ "=") tok) eqn:P.
    + apply prefix_inline in P. contradiction.
    + apply IH. intros k I. apply H. now right.
Qed.

(** When no known name is another known name followed by ['='] and a
    value, the order of the list plays no part. *)
Lemma classify_no_clash (known_arguments : list string) (tok : string) :
  (forall known known' value,
     In known known_arguments -> In known' known_arguments ->
     known' <> known ++ "=" ++ value) ->
  (classify known_arguments tok = BareFlag <-> In tok known_arguments)
  /\ (classify known_arguments tok = InlineFlag <->
      exists known value,
        In known known_arguments /\ tok = known ++ "=" ++ value).
Proof.
  intros Clash.
  pose proof (classify_bare known_arguments tok) as B.
  pose proof (classify_inline known_arguments tok) as I.
  pose proof (classify_unknown_iff known_arguments tok) as U.
  split; split; auto.
  - intros H. destruct (classify known_arguments tok); [reflexivity| |].
    + destruct I as (known & value & I1 & I2); [reflexivity|].
      elim (Clash known tok value I1 H I2).
    + destruct U as [U _]. destruct U as [U _]; [reflexivity|]. contradiction.
  - intros (known & value & I1 & I2).
    destruct (classify known_arguments tok); [|reflexivity|].
    + elim (Clash known tok value I1 (B eq_refl) I2).
    + destruct U as [U _]. destruct U as [_ U]; [reflexivity|].
      elim U. now exists known, value.
Qed.

End ClassFacts.

(** C4, with the known name that decides. [check_for_unknown_arguments]
    scans the tokens at the indices in [1, boundary). A token equal to a
    known name is a bare flag, a token that is a known name followed by
    ['='] and a value is a flag with an inline value, and the token right
    after a bare flag is taken as its value, without being looked at, when
    it does not begin with ['-']. For a token that is of both kinds, by two
    known names, the one of these names that comes first in the list
    decides; when no known name is another known name followed by ['='] and
    a value, the order of the list plays no part. The call returns normally
    exactly when every token is one of these; at the first token that is
    none of them it exits with [EXIT_FAILURE], the diagnostic holding that
    token, the mode label when one is given and the list of the known
    names. *)
Theorem check_for_unknown_arguments_scan (known_arguments : list string)
    (for_mode : option string) (argv : list string) :
  check_for_unknown_arguments known_arguments for_mode argv
  = match first_unrecognized known_arguments (tl argv) with
    | None => Return tt
    | Some tok =>
        Exit EXIT_FAILURE (UnrecognizedArgument tok for_mode known_arguments)
    end
  /\ (check_for_unknown_arguments known_arguments for_mode argv = Return tt
      <-> first_unrecognized known_arguments (tl argv) = None)
  /\ first_unrecognized known_arguments (tl argv)
     = first_unrecognized known_arguments
         (firstn (boundary argv - 1) (tl argv))
  /\ (forall tok,
        (classify known_arguments tok = BareFlag -> In tok known_arguments)
        /\ (classify known_arguments tok = InlineFlag ->
            exists known value,
              In known known_arguments /\ tok = known ++ "=" ++ value)
        /\ (classify known_arguments tok = UnknownToken <->
            ~ In tok known_arguments
            /\ ~ (exists known value,
                    In known known_arguments
                    /\ tok = known ++ "=" ++ value)))
  /\ (forall (before : list string) known after tok,
        known_arguments = (before ++ known :: after)%list ->
        (forall other, In other before ->
           tok <> other /\ ~ (exists value, tok = other ++ "=" ++ value)) ->
        (tok = known -> classify known_arguments tok = BareFlag)
        /\ (forall value, tok = known ++ "=" ++ value ->
            classify known_arguments tok = InlineFlag))
  /\ ((forall known known' value,
         In known known_arguments -> In known' known_arguments ->
         known' <> known ++ "=" ++ value) ->
      forall tok,
        (classify known_arguments tok = BareFlag <-> In tok known_arguments)
        /\ (classify known_arguments tok = InlineFlag <->
            exists known value,
              In known known_arguments /\ tok = known ++ "=" ++ value)).
Proof.
  assert (E : check_for_unknown_arguments known_arguments for_mode argv
              = outcome_of_scan known_arguments for_mode
                  (first_unrecognized known_arguments (tl argv))).
  { unfold check_for_unknown_arguments. destruct argv as [|prog rest].
    - reflexivity.
    - rewrite check_loop_scan by (simpl; lia). reflexivity. }
  split; [exact E|]. split; [|split; [|split; [|split]]].
  - rewrite E.
    destruct (first_unrecognized known_arguments (tl argv)); simpl;
      split; congruence.
  - destruct argv as [|prog rest]; [reflexivity|].
    cbn [tl boundary]. rewrite Nat.sub_1_r. cbn [Nat.pred].
    now apply (first_unrecognized_before_boundary _ (List.length rest)).
  - intros tok. split; [apply classify_bare|].
    split; [apply classify_inline|apply classify_unknown_iff].
  - intros before known after tok ->. apply classify_first_fit.
  - intros Clash tok. now apply classify_no_clash.
Qed.

(** With the known names [--a] and [--b], neither of which is the other
    followed by ['='], a token is a bare flag exactly when it is one of the
    two names. *)
Lemma check_for_unknown_arguments_scan_witness :
  check_for_unknown_arguments ["--a"; "--b"] None
    ["prog"; "--b"; "1"; "--a=2"; "--"; "--c"]
  = Return tt
  /\ (classify ["--a"; "--b"] "--b" = BareFlag <-> In "--b" ["--a"; "--b"]).
Proof.
  destruct (check_for_unknown_arguments_scan ["--a"; "--b"] None
              ["prog"; "--b"; "1"; "--a=2"; "--"; "--c"])
    as (E & _ & _ & _ & _ & H).
  split; [exact E|].
  assert (Clash : forall known known' value,
            In known ["--a"; "--b"] -> In known' ["--a"; "--b"] ->
            known' <> known ++ "=" ++ value).
  { intros known known' value [<-|[<-|[]]] [<-|[<-|[]]] C; discriminate C. }
  apply (H Clash "--b").
Defined.

(** The statement without the order of the list fails. With the known
    names [a] and [a=b], in this order, the token [a=b] is equal to a known
    name and [zzz] stands right after it and does not begin with ['-'], so
    every token before the boundary is of one of the three kinds; the call
    exits all the same and reports [zzz], because [a] comes first and makes
    [a=b] a flag with an inline value. With the same two names in the other
    order the call returns normally. *)
Lemma check_for_unknown_arguments_order_counterexample :
  (forall known, In known ["a"; "a=b"] <-> In known ["a=b"; "a"])
  /\ boundary ["prog"; "a=b"; "zzz"] = 3
  /\ In (argv_at ["prog"; "a=b"; "zzz"] 1) ["a"; "a=b"]
  /\ begins_with_dash (argv_at ["prog"; "a=b"; "zzz"] 2) = false
  /\ check_for_unknown_arguments ["a"; "a=b"] None ["prog"; "a=b"; "zzz"]
     = Exit EXIT_FAILURE (UnrecognizedArgument "zzz" None ["a"; "a=b"])
  /\ check_for_unknown_arguments ["a=b"; "a"] None ["prog"; "a=b"; "zzz"]
     = Return tt.
Proof.
  split; [|split; [|split; [|split; [|split]]]]; try reflexivity.
  - intros known. simpl. tauto.
  - simpl. tauto.
Qed.

(** The class of a token that is a known name and also another known name
    followed by ['='] depends on the order of the list. *)
Lemma check_for_unknown_arguments_order :
  check_for_unknown_arguments ["a=b"; "a"] None ["prog"; "a=b"; "zzz"]
  = Return tt
  /\ check_for_unknown_arguments ["a"; "a=b"] None ["prog"; "a=b"; "zzz"]
     = Exit EXIT_FAILURE (UnrecognizedArgument "zzz" None ["a"; "a=b"]).
Proof. split; reflexivity. Qed.

(** ** The examples of the specification *)

Example find_argument_bare :
  find_argument "x" ["prog"; "x"] = Some "".
Proof. reflexivity. Qed.

Example find_argument_before_boundary :
  find_argument "x" ["prog"; "x"; "--"] = Some "".
Proof. reflexivity. Qed.

Example find_argument_next_token :
  find_argument "x" ["prog"; "x"; "5"] = Some "5".
Proof. reflexivity. Qed.

Example find_argument_inline :
  find_argument "x" ["prog"; "x=5"] = Some "5".
Proof. reflexivity. Qed.

Example find_argument_after_boundary_hidden :
  find_argument "x" ["prog"; "y"; "5"; "--"; "x"] = None.
Proof. reflexivity. Qed.

Example find_int_argument_in_range :
  find_int_argument "n" 0 0 10 ["prog"; "n=7"] = Return 7%Z.
Proof. reflexivity. Qed.

Example find_int_argument_out_of_range :
  find_int_argument "n" 0 0 10 ["prog"; "n=11"]
  = Exit EXIT_FAILURE (IntegerOutOfRange "11" "n" 0 11 10).
Proof. reflexivity. Qed.

Example find_bool_argument_with_value :
  find_bool_argument "v" ["prog"; "v=yes"]
  = Exit EXIT_FAILURE (InvalidBooleanValue "yes" "v").
Proof. reflexivity. Qed.

Example find_enum_argument_default :
  find_enum_argument "mode" 1 ["a"; "b"; "c"] ["prog"] = Return 1%Z.
Proof. reflexivity. Qed.

Example find_enum_argument_unrecognized :
  find_enum_argument "mode" 1 ["a"; "b"; "c"] ["prog"; "mode=z"]
  = Exit EXIT_FAILURE
      (UnrecognizedEnumValue "z" "mode"
         [("a", false); ("b", true); ("c", false)]).
Proof. reflexivity. Qed.

Example check_for_unknown_arguments_known :
  check_for_unknown_arguments ["--flag"] None ["prog"; "--flag=3"] = Return tt.
Proof. reflexivity. Qed.

Example check_for_unknown_arguments_unknown :
  check_for_unknown_arguments ["--flag"] None ["prog"; "--other"]
  = Exit EXIT_FAILURE (UnrecognizedArgument "--other" None ["--flag"]).
Proof. reflexivity. Qed.

Example strtof_tenth :
  strtof "0.1" = (S754_finite false 13421773 (-27), "").
Proof. reflexivity. Qed.

Example strtof_no_conversion :
  strtof "abc" = (float_zero, "abc").
Proof. reflexivity. Qed.

(** * Further properties of the lookup functions *)

(** ** Where a result of [find_argument] comes from *)

Section FoundFacts.

Variables (name : string) (argv : list string).

Lemma search_body_some (i : nat) (r : string) :
  search_body name argv i = Some r ->
  (argv_at argv i = name
   /\ r = if (i =? List.length argv - 1)%nat
             || begins_with_dash (argv_at argv (i + 1))
          then "" else argv_at argv (i + 1))
  \/ argv_at argv i = name ++ "=" ++ r.
Proof.
  destruct (prefix name (argv_at argv i)) eqn:P.
  - apply prefix_iff_append in P. destruct P as [rest P].
    destruct rest as [|c rest].
    + rewrite append_empty_r in P. rewrite (search_body_exact _ _ _ P).
      intros H. injection H as <-. now left.
    + destruct (Ascii.eqb_spec c "="%char) as [->|N].
      * rewrite (search_body_inline _ _ _ _ P). intros H. injection H as <-.
        now right.
      * rewrite (search_body_other _ _ _ _ _ P N). discriminate.
  - rewrite (search_body_no_prefix _ _ _ P). discriminate.
Qed.

Lemma search_loop_some (flag_count steps i : nat) (r : string) :
  search_loop name argv flag_count steps i = Some r ->
  exists j,
    i <= j /\ j < flag_count
    /\ (forall k, i <= k -> k < j -> search_body name argv k = None)
    /\ search_body name argv j = Some r.
Proof.
  revert i. induction steps as [|steps IH]; intros i; simpl; [discriminate|].
  destruct (i <? flag_count)%nat eqn:L; [|discriminate].
  apply Nat.ltb_lt in L.
  destruct (search_body name argv i) as [r'|] eqn:B.
  - intros H. injection H as ->. exists i. repeat split; auto. intros k. lia.
  - intros H. apply IH in H. destruct H as (j & H1 & H2 & H3 & H4).
    exists j. repeat split; auto; [lia|].
    intros k Hk1 Hk2. destruct (Nat.eq_dec k i) as [->|N]; auto.
    apply H3; lia.
Qed.

End FoundFacts.

(** X2. A result of [find_argument] always comes from the first token at
    an index in [1, boundary) that matches: the result is empty for the
    bare name that ends the flags or is followed by a token beginning with
    ['-']; or it is the next token, which then lies before the boundary and
    does not begin with ['-']; or it is the value of [name=value]. *)
Theorem find_argument_found (name : string) (argv : list string)
    (r : string) :
  find_argument name argv = Some r ->
  exists i,
    1 <= i /\ i < boundary argv
    /\ (forall j, 1 <= j -> j < i -> ~ token_matches name (argv_at argv j))
    /\ ((argv_at argv i = name /\ r = ""
         /\ (S i = boundary argv
             \/ begins_with_dash (argv_at argv (S i)) = true))
        \/ (argv_at argv i = name /\ S i < boundary argv
            /\ begins_with_dash r = false /\ r = argv_at argv (S i))
        \/ argv_at argv i = name ++ "=" ++ r).
Proof.
  unfold find_argument. rewrite flag_count_boundary. intros H.
  apply search_loop_some in H. destruct H as (i & H1 & H2 & H3 & H4).
  destruct (boundary_spec argv) as (Hle & Hat & _).
  exists i. split; [lia|]. split; [lia|]. split.
  - intros j Hj1 Hj2. apply search_body_none_iff, H3; lia.
  - apply search_body_some in H4. rewrite Nat.add_1_r in H4.
    destruct H4 as [[E R]|E]; [|now right; right].
    destruct (i =? List.length argv - 1)%nat eqn:Last.
    + left. apply Nat.eqb_eq in Last. repeat split; auto. left. lia.
    + apply Nat.eqb_neq in Last.
      destruct (begins_with_dash (argv_at argv (S i))) eqn:D; simpl in R.
      * left. repeat split; auto.
      * right. left. repeat split; auto; [|now rewrite R].
        destruct (Nat.eq_dec (S i) (boundary argv)) as [B|B]; [|lia].
        destruct Hat as [_ Hat]; [lia|]. rewrite <- B in Hat.
        rewrite Hat in D. discriminate.
Qed.

(** A value found after a bare flag. *)
Lemma find_argument_found_witness :
  exists i,
    1 <= i /\ i < boundary ["prog"; "y"; "x"; "5"; "--"; "x=7"]
    /\ (forall j, 1 <= j -> j < i ->
          ~ token_matches "x" (argv_at ["prog"; "y"; "x"; "5"; "--"; "x=7"] j))
    /\ ((argv_at ["prog"; "y"; "x"; "5"; "--"; "x=7"] i = "x" /\ "5" = ""
         /\ (S i = boundary ["prog"; "y"; "x"; "5"; "--"; "x=7"]
             \/ begins_with_dash
                  (argv_at ["prog"; "y"; "x"; "5"; "--"; "x=7"] (S i)) = true))
        \/ (argv_at ["prog"; "y"; "x"; "5"; "--"; "x=7"] i = "x"
            /\ S i < boundary ["prog"; "y"; "x"; "5"; "--"; "x=7"]
            /\ begins_with_dash "5" = false
            /\ "5" = argv_at ["prog"; "y"; "x"; "5"; "--"; "x=7"] (S i))
        \/ argv_at ["prog"; "y"; "x"; "5"; "--"; "x=7"] i = "x" ++ "=" ++ "5").
Proof.
  apply (find_argument_found "x" ["prog"; "y"; "x"; "5"; "--"; "x=7"] "5").
  reflexivity.
Defined.

(** X1. [require_find_argument] exits with the diagnostic of a missing
    argument exactly when no token at an index in [1, boundary) matches the
    name; a flag found without a value is not missing, its empty value is
    returned. *)
Theorem require_find_argument_missing_iff (name : string)
    (argv : list string) :
  (require_find_argument name argv
   = Exit EXIT_FAILURE (MissingArgument name)
   <-> forall i, 1 <= i -> i < boundary argv ->
         ~ token_matches name (argv_at argv i))
  /\ (forall status stderr,
        require_find_argument name argv = Exit status stderr ->
        status = EXIT_FAILURE /\ stderr = MissingArgument name)
  /\ (forall r, require_find_argument name argv = Return r <->
                find_argument name argv = Some r)
  /\ (forall i,
        1 <= i -> i < boundary argv ->
        (forall j, 1 <= j -> j < i -> ~ token_matches name (argv_at argv j)) ->
        argv_at argv i = name ->
        S i = boundary argv \/ begins_with_dash (argv_at argv (S i)) = true ->
        require_find_argument name argv = Return "").
Proof.
  unfold require_find_argument. split; [|split; [|split]].
  - rewrite <- find_argument_none_iff.
    destruct (find_argument name argv); split; congruence.
  - intros status stderr. destruct (find_argument name argv); [discriminate|].
    intros H. injection H as <- <-. now split.
  - intros r. destruct (find_argument name argv); split; congruence.
  - intros i H1 H2 Hfirst E D.
    destruct (find_argument_first_match_aux name argv i H1 H2 Hfirst)
      as (Bare & _).
    now rewrite (Bare E D).
Qed.

(** A flag that is the last token is returned with the empty value. *)
Lemma require_find_argument_missing_iff_witness :
  require_find_argument "--out" ["prog"; "--in"; "a"; "--out"] = Return "".
Proof.
  destruct (require_find_argument_missing_iff "--out"
              ["prog"; "--in"; "a"; "--out"]) as (_ & _ & _ & H).
  apply (H 3).
  - lia.
  - simpl. lia.
  - intros j Hj1 Hj2.
    assert (j = 1 \/ j = 2) as [-> | ->] by lia;
      intros [E|[value E]]; discriminate E.
  - reflexivity.
  - left. reflexivity.
Defined.

(** ** Cutting the vector at the first ["--"] *)

Section CutFacts.

Lemma first_dashdash_cut (pre post : list string) :
  first_dashdash (pre ++ "--" :: post) = first_dashdash pre.
Proof.
  induction pre as [|t pre IH]; [reflexivity|].
  cbn [app first_dashdash]. now rewrite IH.
Qed.

Lemma search_body_cut (name prog prog' : string) (pre post : list string)
    (k : nat) :
  k < first_dashdash pre ->
  search_body name (prog :: pre ++ "--" :: post) (S k)
  = search_body name (prog' :: pre) (S k).
Proof.
  intros Hk. pose proof (first_dashdash_le pre) as Hle.
  assert (T : argv_at (prog :: pre ++ "--" :: post) (S k)
              = argv_at (prog' :: pre) (S k)).
  { unfold argv_at. cbn [nth]. apply app_nth1. lia. }
  destruct (prefix name (argv_at (prog' :: pre) (S k))) eqn:P.
  - apply prefix_iff_append in P. destruct P as [rest P].
    destruct rest as [|c rest].
    + rewrite append_empty_r in P.
      rewrite (search_body_exact name (prog' :: pre) (S k) P).
      rewrite (search_body_exact name _ (S k) (eq_trans T P)).
      f_equal. rewrite Nat.add_1_r. cbn [List.length]. rewrite length_app.
      cbn [List.length]. unfold argv_at. cbn [nth].
      replace (S k =? S (List.length pre + S (List.length post)) - 1)%nat
        with false by (symmetry; apply Nat.eqb_neq; lia).
      destruct (Nat.eq_dec (S k) (List.length pre)) as [Last|More].
      * replace (S k =? S (List.length pre) - 1)%nat with true
          by (symmetry; apply Nat.eqb_eq; lia).
        rewrite app_nth2 by lia.
        now replace (S k - List.length pre) with 0 by lia.
      * replace (S k =? S (List.length pre) - 1)%nat with false
          by (symmetry; apply Nat.eqb_neq; lia).
        now rewrite app_nth1 by lia.
    + destruct (Ascii.eqb_spec c "="%char) as [->|N].
      * rewrite (search_body_inline name (prog' :: pre) (S k) rest P).
        now rewrite (search_body_inline name _ (S k) rest (eq_trans T P)).
      * rewrite (search_body_other name (prog' :: pre) (S k) c rest P N).
        now rewrite (search_body_other name _ (S k) c rest (eq_trans T P) N).
  - rewrite (search_body_no_prefix name (prog' :: pre) (S k) P).
    apply search_body_no_prefix. now rewrite T.
Qed.

Lemma find_argument_cut (name prog prog' : string) (pre post : list string) :
  find_argument name (prog :: pre ++ "--" :: post)
  = find_argument name (prog' :: pre).
Proof.
  unfold find_argument. rewrite !flag_count_boundary.
  unfold boundary. rewrite first_dashdash_cut.
  apply search_loop_ext. intros k Hk1 Hk2.
  destruct k as [|k]; [lia|]. apply search_body_cut. lia.
Qed.

(** The call as the scan of the tokens after the program name. *)
Lemma check_for_unknown_arguments_outcome (known_arguments : list string)
    (for_mode : option string) (prog : string) (tokens : list string) :
  check_for_unknown_arguments known_arguments for_mode (prog :: tokens)
  = outcome_of_scan known_arguments for_mode
      (first_unrecognized known_arguments tokens).
Proof.
  unfold check_for_unknown_arguments.
  rewrite check_loop_scan by (simpl; lia). reflexivity.
Qed.

Lemma first_unrecognized_cut (known_arguments pre post : list string) :
  first_unrecognized known_arguments (pre ++ "--" :: post)
  = first_unrecognized known_arguments pre.
Proof.
  rewrite (first_unrecognized_before_boundary known_arguments
             (List.length (pre ++ "--" :: post))) by lia.
  rewrite (first_unrecognized_before_boundary known_arguments
             (List.length pre) pre) by lia.
  rewrite first_dashdash_cut. f_equal.
  pose proof (first_dashdash_le pre) as Hle.
  rewrite firstn_app.
  replace (first_dashdash pre - List.length pre) with 0 by lia.
  cbn [firstn]. now rewrite app_nil_r.
Qed.

End CutFacts.

(** X3. The first ["--"] after the program name and whatever follows it
    can be cut off, and the program name can be changed, without any change
    to what the lookups and the check of unknown arguments do: a vector and
    its part before the terminator are not told apart. *)
Theorem cut_at_terminator (prog prog' : string) (pre post : list string) :
  (forall name,
     find_argument name (prog :: pre ++ "--" :: post)
     = find_argument name (prog' :: pre))
  /\ (forall name,
        find_bool_argument name (prog :: pre ++ "--" :: post)
        = find_bool_argument name (prog' :: pre))
  /\ (forall name default_value min_value max_value,
        find_int_argument name default_value min_value max_value
          (prog :: pre ++ "--" :: post)
        = find_int_argument name default_value min_value max_value
            (prog' :: pre))
  /\ (forall name default_value min_value max_value,
        find_float_argument name default_value min_value max_value
          (prog :: pre ++ "--" :: post)
        = find_float_argument name default_value min_value max_value
            (prog' :: pre))
  /\ (forall name default_index known_values,
        find_enum_argument name default_index known_values
          (prog :: pre ++ "--" :: post)
        = find_enum_argument name default_index known_values (prog' :: pre))
  /\ (forall known_arguments for_mode,
        check_for_unknown_arguments known_arguments for_mode
          (prog :: pre ++ "--" :: post)
        = check_for_unknown_arguments known_arguments for_mode (prog' :: pre)).
Proof.
  repeat split; intros.
  - apply find_argument_cut.
  - unfold find_bool_argument.
    now rewrite (find_argument_cut name prog prog' pre post).
  - unfold find_int_argument.
    now rewrite (find_argument_cut name prog prog' pre post).
  - unfold find_float_argument.
    now rewrite (find_argument_cut name prog prog' pre post).
  - unfold find_enum_argument.
    now rewrite (find_argument_cut name prog prog' pre post).
  - rewrite !check_for_unknown_arguments_outcome.
    now rewrite first_unrecognized_cut.
Qed.

(** ** The values the typed lookups return *)

Section ReturnedFacts.

Lemma int_without_value_returned (name : string)
    (default_value min_value max_value r : Z) :
  int_without_value name default_value min_value max_value = Return r ->
  r = default_value /\ (min_value <= r <= max_value)%Z.
Proof.
  unfold int_without_value.
  destruct ((default_value <? min_value)%Z || (default_value >? max_value)%Z)
    eqn:O; [discriminate|].
  apply orb_false_iff in O. rewrite Z.ltb_ge, Z.gtb_ltb, Z.ltb_ge in O.
  intros H. injection H as <-. lia.
Qed.

End ReturnedFacts.

(** X4. A value returned by [find_int_argument] lies in [min, max], be it
    the default or a value read from the vector; [min] and [max] are values
    of type [int]. *)
Theorem find_int_argument_in_bounds (name : string)
    (default_value min_value max_value : Z) (argv : list string) (r : Z) :
  (INT_MIN <= min_value)%Z -> (max_value <= INT_MAX)%Z ->
  find_int_argument name default_value min_value max_value argv = Return r ->
  (min_value <= r <= max_value)%Z.
Proof.
  intros B1 B2 H.
  destruct (find_argument name argv) as [text|] eqn:F.
  - destruct (string_dec text "") as [->|N].
    + rewrite (find_int_argument_empty_value _ _ _ _ _ F) in H.
      now apply int_without_value_returned in H.
    + now apply (find_int_argument_returned name default_value min_value
                   max_value argv text r B1 B2 F N).
  - unfold find_int_argument in H. rewrite F in H.
    now apply int_without_value_returned in H.
Qed.

(** A default inside the bounds, for a flag that is not given. *)
Lemma find_int_argument_in_bounds_witness : (0 <= 3 <= 10)%Z.
Proof.
  apply (find_int_argument_in_bounds "n" 3 0 10 ["prog"; "m=1"] 3).
  - unfold INT_MIN. lia.
  - unfold INT_MAX. lia.
  - reflexivity.
Defined.

(** X5. A value returned by [find_float_argument] is neither below [min]
    nor above [max]; when it is the NaN, the flag was not found and the NaN
    is the default. *)
Theorem find_float_argument_in_bounds (name : string)
    (default_value min_value max_value : float) (argv : list string)
    (f : float) :
  find_float_argument name default_value min_value max_value argv
  = Return f ->
  float_lt f min_value = false /\ float_gt f max_value = false
  /\ (f = S754_nan ->
      find_argument name argv = None /\ default_value = S754_nan).
Proof.
  unfold find_float_argument.
  destruct (find_argument name argv) as [text|].
  - destruct (strtof text) as [v processed].
    destruct (negb (is_nul (char_at processed 0))); [discriminate|].
    destruct (float_lt v min_value) eqn:L; [discriminate|].
    destruct (float_gt v max_value) eqn:G; [discriminate|].
    destruct (float_ne v v) eqn:N; [discriminate|]. simpl.
    intros H. injection H as <-. repeat split; auto;
      apply float_ne_self_false in N; contradiction.
  - destruct (float_lt default_value min_value) eqn:L; [discriminate|].
    destruct (float_gt default_value max_value) eqn:G; [discriminate|].
    simpl. intros H. injection H as <-. repeat split; auto.
Qed.

(** The value 0.5 read from the vector, with the bounds 0 and 1. *)
Lemma find_float_argument_in_bounds_witness :
  float_lt (S754_finite false 8388608 (-24)) float_zero = false
  /\ float_gt (S754_finite false 8388608 (-24)) float_one = false.
Proof.
  destruct (find_float_argument_in_bounds "p" float_zero float_zero float_one
              ["prog"; "p"; "0.5"] (S754_finite false 8388608 (-24)))
    as (L & G & _).
  - reflexivity.
  - split; assumption.
Defined.

(** X6. The index returned by [find_enum_argument] for a flag that is
    found is an index of [known_values], and the value there is the text
    found ([known_values] has at most [INT_MAX + 1] entries, so that every
    index is an [int]). For a flag that is not found the default index is
    returned as it is when it is not negative, without a look at the size of
    [known_values]; a negative one makes the call exit asking for a
    value. *)
Theorem find_enum_argument_index (name : string) (default_index : Z)
    (known_values : list string) (argv : list string) :
  (Z.of_nat (List.length known_values) <= INT_MAX + 1)%Z ->
  (forall text r,
     find_argument name argv = Some text ->
     find_enum_argument name default_index known_values argv = Return r ->
     (0 <= r < Z.of_nat (List.length known_values))%Z
     /\ nth_error known_values (Z.to_nat r) = Some text)
  /\ (find_argument name argv = None ->
      ((0 <= default_index)%Z ->
       find_enum_argument name default_index known_values argv
       = Return default_index)
      /\ ((default_index < 0)%Z ->
          find_enum_argument name default_index known_values argv
          = Exit EXIT_FAILURE
              (MissingRequiredValue EnumFlag name
                 (recognized_values known_values default_index 0)))).
Proof.
  intros Size. unfold find_enum_argument. split.
  - intros text r F. rewrite F.
    destruct (enum_loop text known_values 0) as [i|] eqn:E; [|discriminate].
    apply enum_loop_some in E. destruct E as (_ & E & _).
    rewrite Nat.sub_0_r in E.
    assert (L : i < List.length known_values).
    { apply nth_error_Some. congruence. }
    intros H. injection H as <-.
    rewrite to_int_in_range by (unfold INT_MIN, INT_MAX in *; lia).
    rewrite Nat2Z.id. split; [lia|assumption].
  - intros F. rewrite F. split; intros D.
    + replace (default_index >=? 0)%Z with true; [reflexivity|].
      symmetry. rewrite Z.geb_leb. apply Z.leb_le. lia.
    + replace (default_index >=? 0)%Z with false; [reflexivity|].
      symmetry. rewrite Z.geb_leb. apply Z.leb_gt. lia.
Qed.

(** The second value is found; a default index beyond the list is returned
    for a flag that is not found. *)
Lemma find_enum_argument_index_witness :
  nth_error ["a"; "b"; "c"] (Z.to_nat 1) = Some "b"
  /\ find_enum_argument "mode" 7 ["a"; "b"; "c"] ["prog"] = Return 7%Z.
Proof.
  assert (Size : (Z.of_nat (List.length ["a"; "b"; "c"]) <= INT_MAX + 1)%Z)
    by (unfold INT_MAX; simpl; lia).
  split.
  - destruct (find_enum_argument_index "mode" 0 ["a"; "b"; "c"]
                ["prog"; "mode=b"] Size) as (H & _).
    destruct (H "b" 1%Z) as (_ & N); [reflexivity|reflexivity|exact N].
  - destruct (find_enum_argument_index "mode" 7 ["a"; "b"; "c"] ["prog"] Size)
      as (_ & H).
    destruct H as (D & _); [reflexivity|]. apply D. lia.
Defined.

(** ** What [check_for_unknown_arguments] reports and accepts *)

Section ReportFacts.

Variable known_arguments : list string.

Lemma first_unrecognized_some (n : nat) (tokens : list string)
    (tok : string) :
  List.length tokens <= n ->
  first_unrecognized known_arguments tokens = Some tok ->
  exists k,
    k < first_dashdash tokens /\ nth k tokens "" = tok
    /\ classify known_arguments tok = UnknownToken.
Proof.
  revert tokens. induction n as [|n IH]; intros tokens L.
  - destruct tokens; [discriminate|simpl in L; lia].
  - destruct tokens as [|t rest]; [discriminate|]. simpl in L.
    cbn [first_unrecognized first_dashdash].
    destruct (String.eqb t "--"); [discriminate|].
    destruct (classify known_arguments t) eqn:C.
    + destruct rest as [|value rest']; [discriminate|].
      destruct (begins_with_dash value) eqn:D.
      * intros H. apply IH in H; [|lia]. destruct H as (k & H1 & H2 & H3).
        exists (S k). repeat split; auto. lia.
      * intros H. apply IH in H; [|simpl in L; lia].
        destruct H as (k & H1 & H2 & H3).
        exists (S (S k)). repeat split; auto.
        cbn [first_dashdash].
        destruct (String.eqb_spec value "--") as [->|N]; [discriminate|].
        lia.
    + intros H. apply IH in H; [|lia]. destruct H as (k & H1 & H2 & H3).
      exists (S k). repeat split; auto. lia.
    + intros H. injection H as <-. exists 0. repeat split; auto. lia.
Qed.

Lemma classify_app_known (more : list string) (tok : string) :
  classify known_arguments tok <> UnknownToken ->
  classify (known_arguments ++ more) tok = classify known_arguments tok.
Proof.
  induction known_arguments as [|known others IH]; simpl; [congruence|].
  destruct (String.eqb tok known); [reflexivity|].
  destruct (prefix (known ++ "=") tok); [reflexivity|]. exact IH.
Qed.

Lemma first_unrecognized_app_known (more : list string) (n : nat)
    (tokens : list string) :
  List.length tokens <= n ->
  first_unrecognized known_arguments tokens = None ->
  first_unrecognized (known_arguments ++ more) tokens = None.
Proof.
  revert tokens. induction n as [|n IH]; intros tokens L.
  - destruct tokens; [reflexivity|simpl in L; lia].
  - destruct tokens as [|t rest]; [reflexivity|]. simpl in L.
    cbn [first_unrecognized].
    destruct (String.eqb t "--"); [reflexivity|].
    destruct (classify known_arguments t) eqn:C.
    + rewrite classify_app_known, C by congruence.
      destruct rest as [|value rest']; [reflexivity|].
      destruct (begins_with_dash value); intros H;
        (apply IH; [simpl in *; lia|exact H]).
    + rewrite classify_app_known, C by congruence.
      intros H. apply IH; [lia|exact H].
    + discriminate.
Qed.

End ReportFacts.

(** X7. When [check_for_unknown_arguments] exits, the status is
    [EXIT_FAILURE] and the token reported stands in the vector at an index
    in [1, boundary) and is neither a known name nor a known name followed
    by ['='] and a value. So a vector whose tokens before the boundary are
    all of these two forms is accepted. *)
Theorem check_for_unknown_arguments_report (known_arguments : list string)
    (for_mode : option string) (argv : list string) :
  (forall status stderr,
     check_for_unknown_arguments known_arguments for_mode argv
     = Exit status stderr ->
     status = EXIT_FAILURE
     /\ exists i,
          1 <= i /\ i < boundary argv
          /\ stderr = UnrecognizedArgument (argv_at argv i) for_mode
                        known_arguments
          /\ ~ In (argv_at argv i) known_arguments
          /\ ~ (exists known value,
                  In known known_arguments
                  /\ argv_at argv i = known ++ "=" ++ value))
  /\ ((forall i, 1 <= i -> i < boundary argv ->
         In (argv_at argv i) known_arguments
         \/ exists known value,
              In known known_arguments
              /\ argv_at argv i = known ++ "=" ++ value) ->
      check_for_unknown_arguments known_arguments for_mode argv = Return tt).
Proof.
  assert (Report : forall status stderr,
     check_for_unknown_arguments known_arguments for_mode argv
     = Exit status stderr ->
     status = EXIT_FAILURE
     /\ exists i,
          1 <= i /\ i < boundary argv
          /\ stderr = UnrecognizedArgument (argv_at argv i) for_mode
                        known_arguments
          /\ ~ In (argv_at argv i) known_arguments
          /\ ~ (exists known value,
                  In known known_arguments
                  /\ argv_at argv i = known ++ "=" ++ value)).
  { intros status stderr. destruct argv as [|prog tokens].
    - discriminate.
    - rewrite check_for_unknown_arguments_outcome.
      destruct (first_unrecognized known_arguments tokens) as [tok|] eqn:S;
        [|discriminate].
      simpl. intros H. injection H as <- <-. split; [reflexivity|].
      apply (first_unrecognized_some _ (List.length tokens)) in S; [|lia].
      destruct S as (k & H1 & H2 & H3).
      apply classify_unknown_iff in H3. destruct H3 as [H3 H4].
      exists (S k). unfold argv_at. cbn [nth boundary]. rewrite H2.
      repeat split; auto; lia. }
  split; [exact Report|].
  intros All.
  destruct (check_for_unknown_arguments known_arguments for_mode argv)
    as [[]|status stderr] eqn:E; [reflexivity|].
  destruct (Report status stderr eq_refl) as (_ & i & H1 & H2 & _ & N1 & N2).
  destruct (All i H1 H2) as [I|I]; contradiction.
Qed.

(** The unknown token after a flag with an inline value is reported. *)
Lemma check_for_unknown_arguments_report_witness :
  exists i,
    1 <= i /\ i < boundary ["prog"; "--a=1"; "--b"; "--"; "--c"]
    /\ UnrecognizedArgument "--b" (Some "run") ["--a"]
       = UnrecognizedArgument
           (argv_at ["prog"; "--a=1"; "--b"; "--"; "--c"] i) (Some "run")
           ["--a"]
    /\ ~ In (argv_at ["prog"; "--a=1"; "--b"; "--"; "--c"] i) ["--a"]
    /\ ~ (exists known value,
            In known ["--a"]
            /\ argv_at ["prog"; "--a=1"; "--b"; "--"; "--c"] i
               = known ++ "=" ++ value).
Proof.
  destruct (check_for_unknown_arguments_report ["--a"] (Some "run")
              ["prog"; "--a=1"; "--b"; "--"; "--c"]) as (H & _).
  destruct (H EXIT_FAILURE (UnrecognizedArgument "--b" (Some "run") ["--a"]))
    as (_ & R); [reflexivity|exact R].
Defined.

(** X8. Names added at the end of the list of known names never make
    [check_for_unknown_arguments] reject a vector that it accepted. *)
Theorem check_for_unknown_arguments_more_names
    (known_arguments more : list string) (for_mode : option string)
    (argv : list string) :
  check_for_unknown_arguments known_arguments for_mode argv = Return tt ->
  check_for_unknown_arguments (known_arguments ++ more) for_mode argv
  = Return tt.
Proof.
  destruct argv as [|prog tokens]; [reflexivity|].
  rewrite !check_for_unknown_arguments_outcome.
  destruct (first_unrecognized known_arguments tokens) eqn:S; [discriminate|].
  intros _.
  now rewrite (first_unrecognized_app_known known_arguments more
                 (List.length tokens) tokens (le_n _) S).
Qed.

(** A vector accepted with one known name, checked with two. *)
Lemma check_for_unknown_arguments_more_names_witness :
  check_for_unknown_arguments (["--a"] ++ ["--b"]) None
    ["prog"; "--a"; "1"; "--a=2"]
  = Return tt.
Proof.
  apply (check_for_unknown_arguments_more_names ["--a"] ["--b"] None
           ["prog"; "--a"; "1"; "--a=2"]).
  reflexivity.
Defined.

(** X9. With no known name at all, [check_for_unknown_arguments] accepts
    exactly the vectors that have no token before the boundary, and reports
    [argv[1]] for the others. *)
Theorem check_for_unknown_arguments_no_names (for_mode : option string)
    (argv : list string) :
  (check_for_unknown_arguments [] for_mode argv = Return tt
   <-> boundary argv <= 1)
  /\ (1 < boundary argv ->
      check_for_unknown_arguments [] for_mode argv
      = Exit EXIT_FAILURE (UnrecognizedArgument (argv_at argv 1) for_mode [])).
Proof.
  destruct argv as [|prog tokens].
  - split; [|simpl; lia]. split; [simpl; lia|reflexivity].
  - rewrite check_for_unknown_arguments_outcome.
    destruct tokens as [|tok rest].
    + simpl. split; [|lia]. split; [lia|reflexivity].
    + cbn [first_unrecognized boundary first_dashdash classify].
      unfold argv_at. cbn [nth].
      destruct (String.eqb tok "--"); simpl.
      * split; [|lia]. split; [lia|reflexivity].
      * split; [|reflexivity]. split; [discriminate|lia].
Qed.

(** A flag given to a program that knows none. *)
Lemma check_for_unknown_arguments_no_names_witness :
  check_for_unknown_arguments [] None ["prog"; "--a"; "--"; "b"]
  = Exit EXIT_FAILURE (UnrecognizedArgument "--a" None []).
Proof.
  apply (check_for_unknown_arguments_no_names None
           ["prog"; "--a"; "--"; "b"]).
  simpl. lia.
Defined.

(** X10. A token beginning with ['-'], a negative number for one, is never
    read as the value of the bare flag before it. When the first matching
    token is the bare name and such a token follows, [find_int_argument]
    answers as for a flag without a value, with the default or the request
    for a value, and [find_float_argument] answers as for the empty text,
    with 0 or the diagnostic of an out-of-range float. *)
Theorem dash_token_is_no_value (name : string) (argv : list string)
    (i : nat) :
  1 <= i -> i < boundary argv ->
  (forall j, 1 <= j -> j < i -> ~ token_matches name (argv_at argv j)) ->
  argv_at argv i = name ->
  begins_with_dash (argv_at argv (S i)) = true ->
  find_argument name argv = Some ""
  /\ (forall default_value min_value max_value,
        ((min_value <= default_value <= max_value)%Z ->
         find_int_argument name default_value min_value max_value argv
         = Return default_value)
        /\ ((default_value < min_value \/ max_value < default_value)%Z ->
            find_int_argument name default_value min_value max_value argv
            = Exit EXIT_FAILURE (MissingRequiredValue IntFlag name [])))
  /\ (forall default_value min_value max_value,
        find_float_argument name default_value min_value max_value argv
        = if float_lt float_zero min_value || float_gt float_zero max_value
          then Exit EXIT_FAILURE
                 (FloatOutOfRange "" name min_value float_zero max_value)
          else Return float_zero).
Proof.
  intros H1 H2 Hfirst E D.
  destruct (find_argument_first_match_aux name argv i H1 H2 Hfirst)
    as (Bare & _).
  assert (F : find_argument name argv = Some "") by (apply Bare; auto).
  split; [exact F|]. split.
  - intros default_value min_value max_value.
    rewrite (find_int_argument_empty_value _ _ _ _ _ F).
    split; intros H; now apply int_without_value_cases.
  - intros default_value min_value max_value.
    now apply find_float_argument_empty_value.
Qed.

(** [-5] after the flag [n]: the default 3 is returned, not -5; and [-0.5]
    after the flag [p] gives 0. *)
Lemma dash_token_is_no_value_witness :
  find_int_argument "n" 3 (-10) 10 ["prog"; "n"; "-5"] = Return 3%Z
  /\ find_float_argument "p" float_one (S754_infinity true) float_one
       ["prog"; "p"; "-0.5"]
     = Return float_zero.
Proof.
  split.
  - destruct (dash_token_is_no_value "n" ["prog"; "n"; "-5"] 1)
      as (_ & H & _).
    + lia.
    + simpl. lia.
    + intros j Hj1 Hj2. lia.
    + reflexivity.
    + reflexivity.
    + apply (H 3%Z (-10)%Z 10%Z). lia.
  - destruct (dash_token_is_no_value "p" ["prog"; "p"; "-0.5"] 1)
      as (_ & _ & H).
    + lia.
    + simpl. lia.
    + intros j Hj1 Hj2. lia.
    + reflexivity.
    + reflexivity.
    + apply (H float_one (S754_infinity true) float_one).
Defined.

(** ** The values listed in the diagnostics of an enum flag *)

Section RecognizedFacts.

Lemma recognized_values_nth (known_values : list string)
    (default_index : Z) (start i : nat) (value : string) (mark : bool) :
  nth_error (recognized_values known_values default_index start) i
  = Some (value, mark) ->
  nth_error known_values i = Some value
  /\ mark = (Z.of_nat (start + i) =? to_size_t default_index)%Z.
Proof.
  revert start i.
  induction known_values as [|v others IH]; intros start i; simpl.
  - destruct i; discriminate.
  - destruct i as [|i]; simpl.
    + intros H. injection H as <- <-. rewrite Nat.add_0_r. now split.
    + intros H. apply IH in H. now replace (start + S i) with (S start + i)
        by lia.
Qed.

Lemma recognized_values_length (known_values : list string)
    (default_index : Z) (start : nat) :
  List.length (recognized_values known_values default_index start)
  = List.length known_values.
Proof.
  revert start. induction known_values as [|v others IH]; intros start;
    simpl; [reflexivity|]. now rewrite IH.
Qed.

End RecognizedFacts.

(** X11. The list of values written in the diagnostics of an enum flag
    has the known values in their order, and the mark of the default stands
    at the entry whose index is [default_index] and nowhere else; for a
    negative [default_index] no entry is marked. [default_index] is a value
    of type [int] and the list has fewer than [2 ^ 63] entries, so that the
    conversion of a negative index to [size_t] meets no index. *)
Theorem recognized_values_mark (known_values : list string)
    (default_index : Z) :
  (INT_MIN <= default_index <= INT_MAX)%Z ->
  (Z.of_nat (List.length known_values) < 2 ^ 63)%Z ->
  List.length (recognized_values known_values default_index 0)
  = List.length known_values
  /\ (forall i value mark,
        nth_error (recognized_values known_values default_index 0) i
        = Some (value, mark) ->
        nth_error known_values i = Some value
        /\ (mark = true <-> Z.of_nat i = default_index)).
Proof.
  intros D Size. split; [apply recognized_values_length|].
  intros i value mark H.
  assert (L : i < List.length known_values).
  { rewrite <- (recognized_values_length known_values default_index 0).
    apply nth_error_Some. congruence. }
  apply recognized_values_nth in H. destruct H as [H ->].
  split; [assumption|]. rewrite Z.eqb_eq. cbn [Nat.add].
  unfold to_size_t, INT_MIN, INT_MAX in *.
  destruct (Z_lt_ge_dec default_index 0) as [Neg|Pos].
  - replace (default_index mod 2 ^ 64)%Z with (default_index + 2 ^ 64)%Z.
    + lia.
    + apply (Z.mod_unique _ _ (-1)); lia.
  - rewrite Z.mod_small by lia. reflexivity.
Qed.

(** With the default index 1 the second entry is marked, and with -1
    none is. *)
Lemma recognized_values_mark_witness :
  (true = true <-> Z.of_nat 1 = 1%Z)
  /\ (false = true <-> Z.of_nat 1 = (-1)%Z).
Proof.
  split.
  - destruct (recognized_values_mark ["a"; "b"; "c"] 1) as (_ & H).
    + unfold INT_MIN, INT_MAX. lia.
    + simpl. lia.
    + apply (H 1 "b" true). reflexivity.
  - destruct (recognized_values_mark ["a"; "b"; "c"] (-1)) as (_ & H).
    + unfold INT_MIN, INT_MAX. lia.
    + simpl. lia.
    + apply (H 1 "b" false). reflexivity.
Defined.

(** ** Tokens in front of the flag *)

Section SkipFacts.

Variable name : string.

Lemma search_loop_step (argv : list string) (flag_count steps i : nat) :
  search_loop name argv flag_count (S steps) i
  = if (i <? flag_count)%nat then
      match search_body name argv i with
      | Some r => Some r
      | None => search_loop name argv flag_count steps (S i)
      end
    else None.
Proof. reflexivity. Qed.

Lemma search_loop_shift (argv argv' : list string)
    (flag_count steps i : nat) :
  (forall k, i <= k -> k < flag_count ->
     search_body name argv (S k) = search_body name argv' k) ->
  search_loop name argv (S flag_count) steps (S i)
  = search_loop name argv' flag_count steps i.
Proof.
  revert i. induction steps as [|steps IH]; intros i H; [reflexivity|].
  cbn [search_loop].
  change (S i <? S flag_count)%nat with (i <? flag_count)%nat.
  destruct (i <? flag_count)%nat eqn:L; [|reflexivity].
  apply Nat.ltb_lt in L. rewrite (H i) by lia.
  destruct (search_body name argv' i); [reflexivity|].
  apply IH. intros k Hk1 Hk2. apply H; lia.
Qed.

Lemma search_body_shift (prog tok : string) (rest : list string) (k : nat) :
  search_body name (prog :: tok :: rest) (S (S k))
  = search_body name (prog :: rest) (S k).
Proof.
  unfold search_body, argv_at. cbn [List.length].
  replace (S (S (List.length rest)) - 1) with (S (List.length rest)) by lia.
  replace (S (List.length rest) - 1) with (List.length rest) by lia.
  replace (S (S k) + 1) with (S (S (k + 1))) by lia.
  replace (S k + 1) with (S (k + 1)) by lia.
  reflexivity.
Qed.

Lemma find_argument_skip_one (prog tok : string) (rest : list string) :
  ~ token_matches name tok -> tok <> "--" ->
  find_argument name (prog :: tok :: rest) = find_argument name (prog :: rest).
Proof.
  intros M N. unfold find_argument. rewrite !flag_count_boundary.
  cbn [boundary first_dashdash]. apply String.eqb_neq in N. rewrite N.
  replace (Nat.max 1 (S (S (first_dashdash rest))))
    with (S (S (first_dashdash rest))) by lia.
  replace (Nat.max 1 (S (first_dashdash rest)))
    with (S (first_dashdash rest)) by lia.
  rewrite (search_loop_step (prog :: tok :: rest) _
             (S (first_dashdash rest)) 1).
  replace (1 <? S (S (first_dashdash rest)))%nat with true
    by (symmetry; apply Nat.ltb_lt; lia).
  assert (B : search_body name (prog :: tok :: rest) 1 = None).
  { apply search_body_none_iff. exact M. }
  rewrite B. apply search_loop_shift. intros k Hk1 Hk2.
  destruct k as [|k]; [lia|]. apply search_body_shift.
Qed.

End SkipFacts.

(** X12. Tokens in front that do not match the name and are not ["--"],
    such as other flags and their values, can be taken away without any
    change to the result of [find_argument]. *)
Theorem find_argument_skip (name prog : string)
    (skipped rest : list string) :
  (forall tok, In tok skipped -> ~ token_matches name tok /\ tok <> "--") ->
  find_argument name (prog :: skipped ++ rest)
  = find_argument name (prog :: rest).
Proof.
  induction skipped as [|tok skipped IH]; intros H; [reflexivity|].
  cbn [app]. destruct (H tok (or_introl eq_refl)) as [M N].
  rewrite (find_argument_skip_one name prog tok _ M N).
  apply IH. intros t I. apply H. now right.
Qed.

(** Another flag and its value in front of the flag [x]. *)
Lemma find_argument_skip_witness :
  find_argument "x" ("prog" :: ["y"; "1"] ++ ["x"; "5"])
  = find_argument "x" ["prog"; "x"; "5"].
Proof.
  apply (find_argument_skip "x" "prog" ["y"; "1"] ["x"; "5"]).
  intros tok [<-|[<-|[]]]; (split; [|discriminate]);
    intros [E|[value E]]; discriminate E.
Defined.

(** ** Tokens that begin with a dash are always checked *)

Section DashFacts.

Variable known_arguments : list string.

Lemma first_unrecognized_none_dash (n : nat) (tokens : list string) :
  List.length tokens <= n ->
  first_unrecognized known_arguments tokens = None ->
  forall k,
    k < first_dashdash tokens ->
    begins_with_dash (nth k tokens "") = true ->
    classify known_arguments (nth k tokens "") <> UnknownToken.
Proof.
  revert tokens. induction n as [|n IH]; intros tokens L.
  - destruct tokens; [|simpl in L; lia]. intros _ k Hk. simpl in Hk. lia.
  - destruct tokens as [|t rest]; [intros _ k Hk; simpl in Hk; lia|].
    simpl in L. cbn [first_unrecognized first_dashdash].
    destruct (String.eqb t "--"); [intros _ k Hk; lia|].
    destruct (classify known_arguments t) eqn:C.
    + destruct rest as [|value rest'].
      * intros _ k Hk _. simpl in Hk. assert (k = 0) as -> by lia.
        simpl. congruence.
      * destruct (begins_with_dash value) eqn:D.
        -- intros S k Hk Hd. destruct k as [|k]; [simpl; congruence|].
           apply (IH (value :: rest')); auto; lia.
        -- intros S k Hk Hd. destruct k as [|k]; [simpl; congruence|].
           destruct k as [|k]; [simpl in Hd; congruence|].
           cbn [first_dashdash] in Hk.
           destruct (String.eqb_spec value "--") as [->|N]; [discriminate|].
           apply (IH rest'); auto; simpl in L; lia.
    + intros S k Hk Hd. destruct k as [|k]; [simpl; congruence|].
      apply (IH rest); auto; lia.
    + discriminate.
Qed.

End DashFacts.

(** X13. In a vector that [check_for_unknown_arguments] accepts, every
    token at an index in [1, boundary) that begins with ['-'] is a known
    name or a known name followed by ['='] and a value: such a token is
    never passed over as the value of the flag before it. *)
Theorem check_for_unknown_arguments_dash_tokens
    (known_arguments : list string) (for_mode : option string)
    (argv : list string) (i : nat) :
  check_for_unknown_arguments known_arguments for_mode argv = Return tt ->
  1 <= i -> i < boundary argv ->
  begins_with_dash (argv_at argv i) = true ->
  In (argv_at argv i) known_arguments
  \/ exists known value,
       In known known_arguments /\ argv_at argv i = known ++ "=" ++ value.
Proof.
  destruct argv as [|prog tokens]; [simpl; lia|].
  rewrite check_for_unknown_arguments_outcome.
  destruct (first_unrecognized known_arguments tokens) eqn:S; [discriminate|].
  intros _ H1 H2 D. destruct i as [|k]; [lia|].
  unfold argv_at in *. cbn [nth boundary] in *.
  pose proof (first_unrecognized_none_dash known_arguments
                (List.length tokens) tokens (le_n _) S k) as N.
  destruct (classify known_arguments (nth k tokens "")) eqn:C.
  - left. now apply classify_bare.
  - right. now apply classify_inline.
  - elim N; auto. lia.
Qed.

(** The flag [--b] after the value of [--a]. *)
Lemma check_for_unknown_arguments_dash_tokens_witness :
  In (argv_at ["prog"; "--a"; "1"; "--b"] 3) ["--a"; "--b"]
  \/ exists known value,
       In known ["--a"; "--b"]
       /\ argv_at ["prog"; "--a"; "1"; "--b"] 3 = known ++ "=" ++ value.
Proof.
  apply (check_for_unknown_arguments_dash_tokens ["--a"; "--b"] None
           ["prog"; "--a"; "1"; "--b"] 3).
  - reflexivity.
  - lia.
  - simpl. lia.
  - reflexivity.
Defined.
